(** * columbia-courses: the table normalizer and link discovery of [src/scrape.ts]

    A shallow embedding of the two algorithms of the scraper:
    - the normalization of a detail page's first table into a sequence of
      field records (the body of [scrape], lines 157-196);
    - [discoverCourseLinks] (lines 31-90) with its in-page extraction
      predicate [grab];
    and of what [scrape] does around them: the text of a table cell (lines
    148-155), the name of a page's raw file (line 138), the fallback to the
    direct subject page (lines 109-127) and the loop over the course pages
    (lines 129-200).

    JavaScript values are modelled as follows.
    - A string is a [string]; [toLowerCase] acts on the letters A-Z, which is
      all that the test for the text "call number" can observe.
    - An array is a [list]; an out-of-range index read is [None]
      ([undefined]), and [x || ''] is [or_empty].
    - An object used as a record ([CourseRow]) is a [gmap string string].
    - [Math.max] of no arguments is [-Infinity], kept as a value of [jsnum].
    - A promise that rejects is [None]; [.catch] and [try/catch] are [catch]. *)

From Stdlib Require Import Ascii DecimalString DecimalNat.
From stdpp Require Import gmap strings list fin_maps.

Open Scope string_scope.
Open Scope list_scope.

(** ** JavaScript primitives used by the source *)

Module Js.

(** [x || ''] for a possibly missing string. *)
Definition or_empty (x : option string) : string := default "" x.

(** Truthiness of a string: every string but the empty one. *)
Definition truthy (s : string) : bool :=
  match s with "" => false | _ => true end.

Definition lower_ascii (c : Ascii.ascii) : Ascii.ascii :=
  let n := Ascii.nat_of_ascii c in
  if (65 <=? n)%nat && (n <=? 90)%nat then Ascii.ascii_of_nat (n + 32) else c.

Fixpoint toLowerCase (s : string) : string :=
  match s with
  | "" => ""
  | String c t => String (lower_ascii c) (toLowerCase t)
  end.

(** [hay.includes(needle)]. *)
Fixpoint includes (needle hay : string) : bool :=
  String.prefix needle hay ||
  match hay with
  | "" => false
  | String _ t => includes needle t
  end.

(** [s.split('#')[0]]: the text in front of the first '#'. *)
Fixpoint before_hash (s : string) : string :=
  match s with
  | "" => ""
  | String c t => if Ascii.eqb c "#"%char then "" else String c (before_hash t)
  end.

(** The decimal text of a non-negative integer, as a template literal
    prints it. *)
Definition string_of_nat (n : nat) : string :=
  NilEmpty.string_of_uint (Nat.to_uint n).

(** Numbers as far as the source needs them: array lengths, and the
    [-Infinity] that [Math.max()] returns. *)
Inductive jsnum : Type :=
  | NegInfinity
  | Num (n : nat).

#[global] Instance jsnum_eq_dec : EqDecision jsnum.
Proof. solve_decision. Defined.

Definition max2 (a : jsnum) (n : nat) : jsnum :=
  match a with
  | NegInfinity => Num n
  | Num m => Num (Nat.max m n)
  end.

(** [Math.max(...xs)]. *)
Definition math_max (xs : list nat) : jsnum := foldl max2 NegInfinity xs.

(** [r.slice(0, c)]: an end of [-Infinity] is clamped to 0. *)
Definition slice0 {A} (c : jsnum) (r : list A) : list A :=
  match c with
  | NegInfinity => []
  | Num n => take n r
  end.

(** [new Set(xs)] read back with [Array.from]: the elements of [xs] in the
    order of their first occurrence. *)
Definition set_add (s : list string) (x : string) : list string :=
  if decide (x ∈ s) then s else s ++ [x].

Definition new_Set (xs : list string) : list string := foldl set_add [] xs.

(** A rejected promise or a thrown exception is [None]. *)
Definition catch {A} (r : option A) (handler : A) : A := default handler r.

(** [obj[k] = v] on an object created by the literal [{}].  The one property
    name that such an assignment does not define is [__proto__]: it reaches
    the accessor inherited from [Object.prototype], which ignores a string. *)
Definition obj_set (k v : string) (obj : gmap string string) : gmap string string :=
  if decide (k = "__proto__") then obj else <[k := v]> obj.

End Js.

(** ** The table normalizer (lines 157-196 of [scrape]) *)

Module Scrape.
Import Js.

Abbreviation CourseRow := (gmap string string).

(** [Math.max(...matrix.map((r) => r.length))] *)
Definition colCount (matrix : list (list string)) : jsnum :=
  math_max (length <$> matrix).

(** [while (copy.length < colCount) copy.push('')], unrolled on the number of
    cells still missing. *)
Fixpoint push_empty (missing : nat) (copy : list string) : list string :=
  match missing with
  | O => copy
  | S k => push_empty k (copy ++ [""])
  end.

Definition pad_row (c : jsnum) (r : list string) : list string :=
  let copy := slice0 c r in
  match c with
  | NegInfinity => copy
  | Num n => push_empty (n - length copy) copy
  end.

Definition norm (matrix : list (list string)) : list (list string) :=
  pad_row (colCount matrix) <$> matrix.

(** A matrix all of whose rows have [n] cells. *)
Definition rectangular (n : nat) (matrix : list (list string)) : Prop :=
  Forall (λ r, length r = n) matrix.

(** Lines 170-177: the record pushed for the first row. *)
Definition call_number_rows (norm : list (list string)) : list CourseRow :=
  let firstRow := default [] (norm !! 0) in
  let leftTop := or_empty (firstRow !! 0) in
  let rightTop := toLowerCase (or_empty (firstRow !! 1)) in
  if includes "call number" rightTop && truthy leftTop
  then [ {[ "Call Number" := leftTop ]} ]
  else [].

(** Lines 181-185: the body of the loop over the rows of index 1 and up. *)
Definition label_value_row (row : list string) : list CourseRow :=
  let value := or_empty (row !! 1) in
  let label := or_empty (row !! 0) in
  if truthy label then [ {[ label := value ]} ] else [].

Definition label_value_rows (norm : list (list string)) : list CourseRow :=
  call_number_rows norm ++ (drop 1 norm ≫= label_value_row).

(** Line 189: [norm[0].map((h, idx) => h || `col_${idx + 1}`)]. *)
Definition header_name (idx : nat) (h : string) : string :=
  if truthy h then h else "col_" +:+ string_of_nat (idx + 1).

Definition headers (row0 : list string) : list string := imap header_name row0.

(** Line 193: [headers.forEach((h, idx) => (obj[h] = r[idx] || ''))], the
    index counted up from [idx]. *)
Fixpoint assign_cells (idx : nat) (hs : list string) (r : list string)
    (obj : CourseRow) : CourseRow :=
  match hs with
  | [] => obj
  | h :: hs' => assign_cells (S idx) hs' r (obj_set h (or_empty (r !! idx)) obj)
  end.

Definition header_row (hs : list string) (r : list string) : CourseRow :=
  assign_cells 0 hs r ∅.

Definition header_rows (norm : list (list string)) : list CourseRow :=
  let hs := headers (default [] (norm !! 0)) in
  header_row hs <$> drop 1 norm.

(** Lines 158-196: the records of one table. *)
Definition normalize_table (matrix : list (list string)) : list CourseRow :=
  let colCount := colCount matrix in
  let norm := norm matrix in
  if decide (colCount = Num 2) then label_value_rows norm
  else if decide (2 ≤ length norm)%nat then header_rows norm
  else [].

End Scrape.

(** ** Link discovery (lines 31-90) *)

Module Discovery.
Import Js.

(** Lines 7 and 10. *)
Definition BASE : string := "https://doc.sis.columbia.edu".
Definition TERM_CODE : string := "20253".

(** What the extraction predicate sees of a browsing context: the origin of
    its location and the [href] attribute of every [a[href]] element, in
    document order. *)
Record Document : Type := {
  origin : string;
  anchors : list string;
}.

(** A browsing context is a document, or [None] when [evaluate] rejects in it
    (a detached or navigating frame). *)
Abbreviation Context := (option Document).

(** The part of [new URL(href, origin).toString()] that the examples below
    rely on, for an origin such as "https://doc.sis.columbia.edu" and a
    reference written with URL code points and without dot segments: a
    path-absolute reference (one leading "/") is appended to the origin as it
    is, and a reference that is only a fragment ("#...") is appended to the
    origin's root path "/".  Other references are outside this table. *)
Definition url_of_simple_reference (href base : string) : option string :=
  if String.prefix "/" href && negb (String.prefix "//" href)
  then Some (base +:+ href)
  else if String.prefix "#" href then Some (base +:+ "/" +:+ href)
  else None.

(** [s] without the leading "https://", [None] when it does not start so. *)
Definition after_https (s : string) : option string :=
  if String.prefix "https://" s
  then Some (String.substring 8 (String.length s - 8) s)
  else None.

(** The text of [s] up to and including its last "/", empty when [s] has
    none. *)
Fixpoint through_last_slash (s : string) : string :=
  match s with
  | "" => ""
  | String c t =>
      let d := through_last_slash t in
      if Ascii.eqb c "/"%char then String c d
      else match d with "" => "" | _ => String c d end
  end.

(** The text of [s] in front of its first "/". *)
Fixpoint before_slash (s : string) : string :=
  match s with
  | "" => ""
  | String c t => if Ascii.eqb c "/"%char then "" else String c (before_slash t)
  end.

(** [location.origin] for an https location without a port: the scheme and
    the host. *)
Definition origin_of (location : string) : option string :=
  rest ← after_https location;
  Some ("https://" +:+ before_slash rest).

(** A further part of [new URL(href, base).toString()]: a relative-path
    reference (no scheme, no leading "/", "#" or "?", no dot segment),
    against an https [base] without query or fragment, takes the place of
    what follows the last "/" of the path of [base]; a base without a path
    has the path "/".  Other references are outside this table. *)
Definition url_of_relative_reference (href base : string) : option string :=
  if truthy href && negb (String.prefix "/" href)
     && negb (String.prefix "#" href) && negb (String.prefix "?" href)
  then
    rest ← after_https base;
    match through_last_slash rest with
    | "" => Some ("https://" +:+ rest +:+ "/" +:+ href)
    | dir => Some ("https://" +:+ dir +:+ href)
    end
  else None.

Section Grab.

(** [new URL(href, base).toString()], [None] when the constructor throws. *)
Variable url_href : string → string → option string.

(** Line 38: the filter on the raw attribute. *)
Definition wanted (tCode href : string) : bool :=
  includes "/subj/COMS/" href && includes ("-" +:+ tCode +:+ "-") href.

(** Lines 41-47: resolve, stringify, cut at '#'; the empty string on a throw. *)
Definition resolve (base href : string) : string :=
  match url_href href base with
  | Some u => before_hash u
  | None => ""
  end.

(** Lines 35-50: the function evaluated inside one context. *)
Definition grab_in (tCode : string) (doc : Document) : list string :=
  let urls := filter (λ href, wanted tCode href) (anchors doc) in
  new_Set (filter (λ u, truthy u) (resolve (origin doc) <$> urls)).

(** Lines 33-52: [grab] rejects when [evaluate] does. *)
Definition grab (tCode : string) (ctx : Context) : option (list string) :=
  grab_in tCode <$> ctx.

(** What one context contributes once a failure is caught. *)
Definition links_of (tCode : string) (ctx : Context) : list string :=
  catch (grab tCode ctx) [].

(** [p.catch(() => h)] and [try { return await p } catch { return h }]. *)
Definition recover {A} (p : option A) (h : A) : option A := Some (catch p h).

(** Lines 54-89.  [page] is the top document as it is when line 54 runs;
    [frames] is what [page.frames()] returns at line 70, after the waits and
    the change of the hash.  The waits, the sleeps and the hash script are
    all followed by [.catch(() => {})] and return nothing that is used. *)
Definition discoverCourseLinks (page : Context) (frames : list Context)
    (termCode : string) : option (list string) :=
  fromMain ← recover (grab termCode page) [];
  fromFramesArrays ← mapM (λ f, recover (grab termCode f) []) frames;
  let fromFrames := mjoin fromFramesArrays in
  Some (new_Set (fromMain ++ fromFrames)).

End Grab.

End Discovery.

(** ** Regular-expression replacements on sequences of characters *)

Module Text.

Section Runs.

Context {A : Type}.

(** The character class of the expression. *)
Variable p : A → bool.

(** [s.replace(/P+/g, r)] for a one-character replacement [r]: every maximal
    run of characters of the class becomes one [r].  [in_run] tells that the
    character in front belongs to a run that has been replaced already. *)
Fixpoint replace_runs (r : A) (in_run : bool) (s : list A) : list A :=
  match s with
  | [] => []
  | c :: t =>
      if p c
      then if in_run then replace_runs r true t else r :: replace_runs r true t
      else c :: replace_runs r false t
  end.

(** [s.replace(/^P+/, '')] *)
Fixpoint strip_start (s : list A) : list A :=
  match s with
  | [] => []
  | c :: t => if p c then strip_start t else s
  end.

(** [s.replace(/P+$/, '')] *)
Definition strip_end (s : list A) : list A :=
  reverse (strip_start (reverse s)).

(** [s.replace(/^P+|P+$/g, '')], and [s.trim()] for the class of white
    space. *)
Definition strip_both (s : list A) : list A := strip_start (strip_end s).

(** The state of the scan of [replace_runs] behind [s]. *)
Definition run_state (b : bool) (s : list A) : bool :=
  match last s with
  | Some c => p c
  | None => b
  end.

(** No two neighbours both in the class. *)
Definition no_adjacent (s : list A) : Prop :=
  ∀ (i : nat) (a b : A),
    s !! i = Some a → s !! S i = Some b → p a = true → p b = false.

(** A sequence that [replace_runs] leaves as it is: every character of the
    class is the replacement and stands alone. *)
Fixpoint collapsed (r : A) (in_run : bool) (s : list A) : Prop :=
  match s with
  | [] => True
  | c :: t =>
      if p c then in_run = false ∧ c = r ∧ collapsed r true t
      else collapsed r false t
  end.

End Runs.

(** [s.slice(-n)] for a positive [n]: the last [n] characters, all of them
    when there are fewer. *)
Definition slice_last {A} (n : nat) (s : list A) : list A :=
  drop (length s - n) s.

End Text.

(** ** The name of the raw file of a course page (line 138) *)

Module Slug.
Import Text.

(** The class [[a-zA-Z0-9]].  A character outside ASCII is a sequence of
    bytes none of which is in the class, as its code units are not. *)
Definition is_alnum (c : Ascii.ascii) : bool :=
  let n := Ascii.nat_of_ascii c in
  ((48 <=? n)%nat && (n <=? 57)%nat)
  || ((65 <=? n)%nat && (n <=? 90)%nat)
  || ((97 <=? n)%nat && (n <=? 122)%nat).

Definition not_alnum (c : Ascii.ascii) : bool := negb (is_alnum c).

Definition is_underscore (c : Ascii.ascii) : bool := Ascii.eqb c "_"%char.

(** [url.replace(/[^a-zA-Z0-9]+/g, '_').replace(/^_+|_+$/g, '').slice(-180)]
    on the characters of the URL. *)
Definition slug_chars (url : list Ascii.ascii) : list Ascii.ascii :=
  slice_last 180
    (strip_both is_underscore (replace_runs not_alnum "_"%char false url)).

Definition slug (url : string) : string :=
  String.string_of_list_ascii (slug_chars (String.list_ascii_of_string url)).

End Slug.

(** ** The text of a table cell (lines 151-153) *)

Module CellText.
Import Text.

(** A string as its UTF-16 code units. *)
Abbreviation text := (list N).

(** The class [\s], which is also what [trim] removes: the white space and
    line terminator code points of ECMAScript. *)
Definition is_space (u : N) : bool :=
  bool_decide (u ∈ [9; 10; 11; 12; 13; 32; 160; 5760; 8232; 8233; 8239; 8287;
                    12288; 65279]%N)
  || ((8192 <=? u)%N && (u <=? 8202)%N).

(** U+0020, the replacement. *)
Definition SPACE : N := 32%N.

(** [(el.textContent || '').trim().replace(/\s+/g, ' ')]; a missing
    [textContent] is [None]. *)
Definition cell_text (textContent : option text) : text :=
  replace_runs is_space SPACE false (strip_both is_space (default [] textContent)).

(** Lines 149-154: the cells of every row of the table. *)
Definition cell_matrix (rows : list (list (option text))) : list (list text) :=
  fmap (M := list) (fmap (M := list) cell_text) rows.

End CellText.

(** ** The run of the scraper (lines 92-207) *)

Module Run.
Import Js Scrape Discovery Slug.

(** What the loop reads of a loaded course page: [page.content()], the text
    of the first [h1] or [h2] ([None] for [null], also when reading it
    fails), and the cell matrix of the first table ([None] when the page has
    no table). *)
Record PageView : Type := {
  content : string;
  heading : option string;
  first_table : option (list (list string));
}.

(** Lines 13-17; an absent [rows] is [None]. *)
Record CourseItem : Type := {
  url : string;
  title : option string;
  rows : option (list CourseRow);
}.

(** Lines 141-199: the item pushed for a course page. *)
Definition course_item (u : string) (page : PageView) : CourseItem :=
  {| url := u; title := heading page; rows := normalize_table <$> first_table page |}.

(** Line 139: the name of the file written under [data/raw]. *)
Definition raw_name (u : string) : string := slug u +:+ ".html".

(** The outcome of the awaits of one pass of the loop, in their order; [false]
    and [None] stand for a rejection, which only the reading of the heading
    catches.  [within_spread] tells that the engine accepts the call
    [Math.max(...)] of line 158, which has one argument for each row of the
    table. *)
Record Visit : Type := {
  navigated : bool;                               (* page.goto, line 133 *)
  page_content : option string;                   (* page.content(), line 137 *)
  raw_written : bool;                             (* writeFile, line 139 *)
  first_heading : option string;                  (* line 141, caught: null *)
  table_count : option nat;                       (* count(), line 144 *)
  table_cells : option (list (list string));      (* table.evaluate, line 148 *)
  within_spread : bool;                           (* Math.max(...), line 158 *)
}.

(** Lines 133-196: what a pass that runs to its end has read. *)
Definition page_view (v : Visit) : option PageView :=
  if navigated v then
    html ← page_content v;
    if raw_written v then
      tableCount ← table_count v;
      if decide (0 < tableCount)%nat then
        matrix ← table_cells v;
        if within_spread v
        then Some {| content := html; heading := first_heading v;
                     first_table := Some matrix |}
        else None
      else Some {| content := html; heading := first_heading v;
                   first_table := None |}
    else None
  else None.

(** One of the awaits of the pass that nothing catches rejects; the table is
    read only when there is one. *)
Definition rejects (v : Visit) : Prop :=
  navigated v = false
  ∨ page_content v = None
  ∨ raw_written v = false
  ∨ table_count v = None
  ∨ ∃ tableCount : nat,
      table_count v = Some tableCount ∧ (0 < tableCount)%nat
      ∧ (table_cells v = None ∨ within_spread v = false).

(** Lines 130-200.  [goto u] is what the pass for [u] has read, [None] when
    the navigation or a later await of the pass rejects (see [page_view]);
    nothing catches it, so the loop stops there.  [results] are the items
    pushed so far and [raw] the files written so far, by name. *)
Fixpoint course_loop (goto : string → option PageView) (courseLinks : list string)
    (results : list CourseItem) (raw : gmap string string)
    : option (list CourseItem * gmap string string) :=
  match courseLinks with
  | [] => Some (results, raw)
  | u :: rest =>
      page ← goto u;
      course_loop goto rest (results ++ [course_item u page])
        (<[raw_name u := content page]> raw)
  end.

(** A loaded listing page: its top document and its frames, as
    [discoverCourseLinks] sees them. *)
Abbreviation Listing := (Context * list Context)%type.

Section Links.

Variable url_href : string → string → option string.

(** Lines 114-126: the links of the direct subject page, none when going
    there fails. *)
Definition fallback_links (fallback : option Listing) : list string :=
  catch (l ← fallback; discoverCourseLinks url_href l.1 l.2 TERM_CODE) [].

(** Lines 109-127. *)
Definition course_links (listing : Listing) (fallback : option Listing)
    : option (list string) :=
  courseLinks ← discoverCourseLinks url_href listing.1 listing.2 TERM_CODE;
  if decide (length courseLinks = 0%nat)
  then Some (courseLinks ++ fallback_links fallback)
  else Some courseLinks.

(** Lines 102-200, from the listing to the end of the loop: the items and
    the raw files, [None] when what is in between rejects.  [listing] is
    [None] when the listing could not be loaded, and [goto] is as in
    [course_loop]. *)
Definition scrape (listing : option Listing) (fallback : option Listing)
    (goto : string → option PageView)
    : option (list CourseItem * gmap string string) :=
  l ← listing;
  courseLinks ← course_links l fallback;
  course_loop goto courseLinks [] ∅.

(** The outcome of the awaits of a run outside the loop, in their order;
    only the navigation to the direct subject page is caught. *)
Record Session : Type := {
  started : bool;                 (* ensureDirs, launch, newContext, newPage: 93-100 *)
  listing_page : option Listing;  (* page.goto(LIST_URL), line 103 *)
  screenshot_taken : bool;        (* page.screenshot, line 107 *)
  fallback_page : option Listing; (* line 115, caught *)
  visit : string → Visit;         (* the passes of the loop *)
  output_written : bool;          (* writeFile of courses.json, line 203 *)
  closed : bool;                  (* browser.close(), line 206 *)
}.

(** An await without a catch. *)
Definition check (ok : bool) : option unit := if ok then Some () else None.

(** Lines 92-212: the items and the raw files of a run that ends normally,
    [None] for a run that ends in [process.exit(1)]. *)
Definition run (s : Session) : option (list CourseItem * gmap string string) :=
  _ ← check (started s);
  l ← listing_page s;
  _ ← check (screenshot_taken s);
  courseLinks ← course_links l (fallback_page s);
  res ← course_loop (λ u, page_view (visit s u)) courseLinks [] ∅;
  _ ← check (output_written s);
  _ ← check (closed s);
  Some res.

End Links.

End Run.

Import Js Scrape Discovery Text Slug CellText Run.

(** ** Facts about the primitives *)

Section JsFacts.

Lemma truthy_true (s : string) : truthy s = true ↔ s ≠ "".
Proof. destruct s; simpl; split; intros; congruence. Qed.

Lemma truthy_false (s : string) : truthy s = false ↔ s = "".
Proof. destruct s; simpl; split; intros; congruence. Qed.

Lemma string_of_nat_inj (n m : nat) : string_of_nat n = string_of_nat m → n = m.
Proof.
  unfold string_of_nat. intros E.
  apply DecimalNat.Unsigned.to_uint_inj.
  apply (f_equal NilEmpty.uint_of_string) in E.
  rewrite !NilEmpty.usu in E. congruence.
Qed.

Lemma max2_const (n : nat) (xs : list nat) :
  Forall (λ x, x = n) xs → foldl max2 (Num n) xs = Num n.
Proof.
  induction 1 as [|x xs -> _ IH]; simpl; [done|].
  by rewrite Nat.max_id.
Qed.

Lemma math_max_const (n : nat) (xs : list nat) :
  Forall (λ x, x = n) xs → xs ≠ [] → math_max xs = Num n.
Proof.
  unfold math_max. destruct 1 as [|x xs -> H]; [done|]. intros _.
  simpl. by apply max2_const.
Qed.

End JsFacts.

(** ** Facts about the normalization of row lengths *)

Section NormFacts.

Lemma colCount_rectangular n r rest :
  rectangular n (r :: rest) → colCount (r :: rest) = Num n.
Proof.
  intros H. unfold colCount. apply math_max_const; [|done].
  apply Forall_fmap. eapply Forall_impl; [exact H|]. done.
Qed.

Lemma push_empty_app k copy : push_empty k copy = copy ++ replicate k "".
Proof.
  revert copy. induction k as [|k IH]; intros copy; simpl.
  - by rewrite app_nil_r.
  - rewrite IH, <- app_assoc. done.
Qed.

Lemma pad_row_full n r : length r = n → pad_row (Num n) r = r.
Proof.
  intros <-. unfold pad_row, slice0. rewrite firstn_all.
  by rewrite Nat.sub_diag.
Qed.

Lemma norm_rectangular n r rest :
  rectangular n (r :: rest) → norm (r :: rest) = r :: rest.
Proof.
  intros H. unfold norm. rewrite (colCount_rectangular n _ _ H).
  revert H. generalize (r :: rest). intros m H.
  induction H as [|x m Hx _ IH]; [done|]. rewrite fmap_cons.
  by rewrite pad_row_full, IH.
Qed.

Lemma normalize_table_nil : normalize_table [] = [].
Proof. reflexivity. Qed.

Lemma normalize_table_two_columns r rest :
  rectangular 2 (r :: rest) →
  normalize_table (r :: rest) = label_value_rows (r :: rest).
Proof.
  intros H. unfold normalize_table.
  rewrite (norm_rectangular 2 _ _ H), (colCount_rectangular 2 _ _ H).
  by rewrite decide_True.
Qed.

Lemma normalize_table_single_row n r :
  n ≠ 2 → length r = n → normalize_table [r] = [].
Proof.
  intros Hn Hr. assert (H : rectangular n [r]) by (by repeat constructor).
  unfold normalize_table.
  rewrite (norm_rectangular n _ _ H), (colCount_rectangular n _ _ H).
  rewrite decide_False by congruence.
  rewrite decide_False by (simpl; lia). done.
Qed.

Lemma normalize_table_header n row0 r rest :
  n ≠ 2 → rectangular n (row0 :: r :: rest) →
  normalize_table (row0 :: r :: rest)
  = header_row (headers row0) <$> r :: rest.
Proof.
  intros Hn H. unfold normalize_table.
  rewrite (norm_rectangular n _ _ H), (colCount_rectangular n _ _ H).
  rewrite decide_False by congruence.
  rewrite decide_True by (simpl; lia). done.
Qed.

End NormFacts.

(** ** The label/value layout (two columns) *)

Section LabelValue.

Lemma label_value_row_cells (l r : string) :
  label_value_row [l; r] = if decide (l = "") then [] else [ {[ l := r ]} ].
Proof.
  destruct (decide (l = "")) as [->|Hl]; [done|].
  apply truthy_true in Hl.
  change (label_value_row [l; r])
    with (if truthy l then [ ({[ l := r ]} : CourseRow) ] else []).
  by rewrite Hl.
Qed.

Lemma call_number_rows_cells (l r : string) (rest : list (list string)) :
  call_number_rows ([l; r] :: rest)
  = if includes "call number" (toLowerCase r) && truthy l
    then [ {[ "Call Number" := l ]} ] else [].
Proof. reflexivity. Qed.

Lemma label_value_rows_cons (row0 : list string) (rest : list (list string)) :
  label_value_rows (row0 :: rest)
  = call_number_rows (row0 :: rest) ++ (rest ≫= label_value_row).
Proof. reflexivity. Qed.




End LabelValue.

(** C1 (the code departs from the claim).  The table of the specification's
    own example, with the value in the left cell and the label in the right
    one: the first row is read as the comment of line 168 says, but the loop
    over the following rows takes [norm[i][0]], the left cell, as the key
    and [norm[i][1]], the right cell, as the value.  The record of the
    second row is keyed by "TR 10:10-11:25" and not by "Times". *)
Theorem label_value_example_keyed_by_left_cell :
  normalize_table [["98765"; "Call Number"]; ["TR 10:10-11:25"; "Times"]]
  = [ {[ "Call Number" := "98765" ]}; {[ "TR 10:10-11:25" := "Times" ]} ]
  ∧ normalize_table [["98765"; "Call Number"]; ["TR 10:10-11:25"; "Times"]]
  ≠ [ {[ "Call Number" := "98765" ]}; {[ "Times" := "TR 10:10-11:25" ]} ].
Proof.
  assert (E : normalize_table
                [["98765"; "Call Number"]; ["TR 10:10-11:25"; "Times"]]
              = [ {[ "Call Number" := "98765" ]};
                  {[ "TR 10:10-11:25" := "Times" ]} ]).
  { rewrite normalize_table_two_columns by (by repeat constructor).
    rewrite label_value_rows_cons, call_number_rows_cells.
    rewrite bind_singleton, label_value_row_cells.
    reflexivity. }
  split; [exact E|]. rewrite E. intros H.
  apply (f_equal (λ recs : list CourseRow, recs !! 1%nat ≫= (.!! "Times"))) in H.
  cbn [lookup list_lookup mbind option_bind] in H.
  rewrite lookup_singleton_ne in H by done.
  rewrite lookup_singleton_eq in H. discriminate.
Qed.

(** C4.  In a rectangular table of two columns whose first row is [l; r],
    the record [{ "Call Number": l }] is pushed, in front of the records of
    all the other rows, exactly when [r] in lower case contains
    "call number" and [l] is not empty.  With an empty [l] nothing is pushed
    for the first row. *)
Theorem call_number_record_iff (l r : string) (rest : list (list string)) :
  rectangular 2 ([l; r] :: rest) →
  let others := rest ≫= label_value_row in
  (includes "call number" (toLowerCase r) = true ∧ l ≠ "" →
     normalize_table ([l; r] :: rest) = {[ "Call Number" := l ]} :: others)
  ∧ (¬ (includes "call number" (toLowerCase r) = true ∧ l ≠ "") →
     normalize_table ([l; r] :: rest) = others)
  ∧ (l = "" → normalize_table ([l; r] :: rest) = others).
Proof.
  intros H others.
  rewrite (normalize_table_two_columns _ _ H).
  rewrite label_value_rows_cons, call_number_rows_cells. fold others.
  destruct (includes "call number" (toLowerCase r)) eqn:Hinc;
    destruct (truthy l) eqn:Hl; cbn [andb app].
  - apply truthy_true in Hl. repeat split; try done.
    intros Hn. destruct Hn. by split.
  - apply truthy_false in Hl. repeat split; try done.
    intros [_ Hn]. done.
  - repeat split; try done. intros [? _]. done.
  - repeat split; try done. intros [? _]. done.
Qed.

Lemma call_number_record_iff_witness :
  rectangular 2 [["98765"; "CALL NUMBER (5 digits)"]; ["4"; "Points"]; [""; "Notes"]]
  ∧ normalize_table [["98765"; "CALL NUMBER (5 digits)"]; ["4"; "Points"]; [""; "Notes"]]
    = [ {[ "Call Number" := "98765" ]}; {[ "4" := "Points" ]} ].
Proof.
  assert (R : rectangular 2
    [["98765"; "CALL NUMBER (5 digits)"]; ["4"; "Points"]; [""; "Notes"]])
    by (by repeat constructor).
  split; [exact R|].
  destruct (call_number_record_iff "98765" "CALL NUMBER (5 digits)"
              [["4"; "Points"]; [""; "Notes"]] R) as (H & _ & _).
  rewrite H; [reflexivity|]. split; [reflexivity|done].
Defined.




(** ** The header layout *)

Section HeaderTable.

Lemma obj_set_lookup (k v : string) (obj : CourseRow) (k' : string) :
  obj_set k v obj !! k'
  = if decide (k = k' ∧ k ≠ "__proto__") then Some v else obj !! k'.
Proof.
  unfold obj_set. destruct (decide (k = "__proto__")) as [->|Hk].
  - rewrite decide_False; [done|]. intros [_ ?]. done.
  - destruct (decide (k = k')) as [->|Hne].
    + rewrite decide_True by done. apply lookup_insert_eq.
    + rewrite decide_False by (intros [? _]; done). by apply lookup_insert_ne.
Qed.

Lemma assign_cells_lookup_notin idx hs r (obj : CourseRow) (k : string) :
  k ∉ hs → assign_cells idx hs r obj !! k = obj !! k.
Proof.
  revert idx obj. induction hs as [|h hs IH]; intros idx obj Hk; [done|].
  apply not_elem_of_cons in Hk as [Hne Hk]. cbn [assign_cells].
  rewrite IH, obj_set_lookup by done.
  rewrite decide_False; [done|]. intros [-> _]. done.
Qed.

Lemma assign_cells_lookup_proto idx hs r (obj : CourseRow) :
  assign_cells idx hs r obj !! "__proto__" = obj !! "__proto__".
Proof.
  revert idx obj. induction hs as [|h hs IH]; intros idx obj; [done|].
  cbn [assign_cells]. rewrite IH, obj_set_lookup.
  rewrite decide_False; [done|]. intros [-> ?]. done.
Qed.

(** The cell that a key ends up with is the one of the last column that
    bears it. *)
Lemma assign_cells_lookup_last idx hs r (obj : CourseRow) (i : nat) (h : string) :
  hs !! i = Some h → h ≠ "__proto__" →
  (∀ j, i < j → hs !! j ≠ Some h) →
  assign_cells idx hs r obj !! h = Some (or_empty (r !! (idx + i)%nat)).
Proof.
  revert idx obj i. induction hs as [|h0 hs IH]; intros idx obj i Hi Hp Hlast;
    [done|].
  cbn [assign_cells]. destruct i as [|i].
  - injection Hi as ->. rewrite assign_cells_lookup_notin.
    + rewrite obj_set_lookup, decide_True by done. by rewrite Nat.add_0_r.
    + intros (j & Hj)%list_elem_of_lookup.
      apply (Hlast (S j)); [lia|done].
  - rewrite (IH (S idx) _ i); [|done|done|].
    + by rewrite Nat.add_succ_r.
    + intros j Hj. apply (Hlast (S j)). lia.
Qed.

Lemma assign_cells_is_Some idx hs r (obj : CourseRow) (k : string) :
  is_Some (assign_cells idx hs r obj !! k) → k ∈ hs ∨ is_Some (obj !! k).
Proof.
  destruct (decide (k ∈ hs)) as [|Hk]; [by left|].
  rewrite assign_cells_lookup_notin by done. by right.
Qed.

Lemma header_row_keys hs r (k : string) :
  is_Some (header_row hs r !! k) → k ∈ hs.
Proof.
  intros [H|H]%assign_cells_is_Some; [done|].
  rewrite lookup_empty in H. by destruct H.
Qed.

Lemma headers_lookup row0 idx :
  headers row0 !! idx = header_name idx <$> row0 !! idx.
Proof. apply list_lookup_imap. Qed.

Lemma header_name_cases idx (h : string) :
  header_name idx h
  = if decide (h = "") then "col_" +:+ string_of_nat (idx + 1) else h.
Proof.
  unfold header_name. destruct (decide (h = "")) as [->|Hh]; [done|].
  apply truthy_true in Hh. by rewrite Hh.
Qed.

Lemma placeholder_nonempty (s : string) : "col_" +:+ s ≠ "".
Proof. done. Qed.

Lemma placeholder_inj (a b : string) : "col_" +:+ a = "col_" +:+ b → a = b.
Proof. intros H. cbv in H. by injection H. Qed.

Lemma header_name_nonempty idx (h : string) : header_name idx h ≠ "".
Proof.
  rewrite header_name_cases. case_decide; [apply placeholder_nonempty|done].
Qed.

Lemma headers_nonempty row0 (k : string) : k ∈ headers row0 → k ≠ "".
Proof.
  intros (i & Hi)%list_elem_of_lookup. rewrite headers_lookup in Hi.
  destruct (row0 !! i) as [h|]; [|done]. injection Hi as <-.
  apply header_name_nonempty.
Qed.

End HeaderTable.

(** C2 (the code departs from the claim).  A table of one column and two
    rows is not left without records: the branch commented as the fallback
    for header tables of three columns and more is guarded by the number of
    rows only, so the single cell of the first row becomes the field name. *)
Theorem one_column_two_rows_read_as_header_table :
  rectangular 1 [["Header"]; ["v"]]
  ∧ normalize_table [["Header"]; ["v"]] = [ {[ "Header" := "v" ]} ].
Proof.
  split; [by repeat constructor|].
  rewrite (normalize_table_header 1) by (done || by repeat constructor).
  reflexivity.
Qed.

(** The part of C2 that the code does satisfy: a single row never gives a
    record unless it has two cells. *)
Lemma single_row_no_records (n : nat) (r : list string) :
  n ≠ 2 → length r = n → normalize_table [r] = [].
Proof. apply normalize_table_single_row. Qed.

(** C3 (the code departs from the claim).  Two rows without any cell make a
    matrix of zero columns; it falls into the same branch and gives one
    record without any field, not an empty sequence. *)
Theorem zero_columns_two_rows_give_empty_record :
  colCount [[]; []] = Num 0
  ∧ normalize_table [[]; []] = [ ∅ ].
Proof. split; reflexivity. Qed.

(** The parts of C3 that the code does satisfy: no rows, and one row without
    cells. *)
Lemma no_rows_no_records : colCount [] = NegInfinity ∧ normalize_table [] = [].
Proof. split; reflexivity. Qed.

Lemma zero_columns_one_row_no_records : normalize_table [[]] = [].
Proof. reflexivity. Qed.

(** C5, as stated, fails when two header cells carry the same name: the
    record maps the name to the cell of the later column, so the first
    column's header "A" does not map to the first cell "1". *)
Lemma repeated_header_maps_to_later_cell :
  rectangular 3 [["A"; "A"; "B"]; ["1"; "2"; "3"]]
  ∧ headers ["A"; "A"; "B"] !! 0%nat = Some "A"
  ∧ ["1"; "2"; "3"] !! 0%nat = Some "1"
  ∧ ∃ rec : CourseRow,
      normalize_table [["A"; "A"; "B"]; ["1"; "2"; "3"]] = [rec]
      ∧ rec !! "A" = Some "2"
      ∧ rec !! "A" ≠ Some "1".
Proof.
  split; [by repeat constructor|]. split; [done|]. split; [done|].
  eexists. split.
  - rewrite (normalize_table_header 3) by (done || by repeat constructor).
    reflexivity.
  - assert (E : header_row (headers ["A"; "A"; "B"]) ["1"; "2"; "3"] !! "A"
                = Some "2").
    { unfold header_row.
      by rewrite (assign_cells_lookup_last 0 _ _ _ 1 "A");
        [| | |intros [|[|[|j]]] ?; try lia; done]. }
    rewrite E. split; [done|discriminate].
Qed.

(** C5, amended.  In a rectangular table of three or more columns and two
    or more rows, the rows behind the first one give one record each, in
    order; the field names are the cells of the first row, an empty cell
    at index [idx] replaced by "col_" followed by [idx + 1]; a record maps
    a field name to the row's cell at the last column bearing that name
    (at the same column, when no later column repeats the name), a missing
    cell being read as the empty string; a column named "__proto__" defines
    no field; and a record has no other keys than the field names. *)
Theorem header_table_records
    (n : nat) (row0 r : list string) (rest : list (list string)) :
  (3 ≤ n)%nat → rectangular n (row0 :: r :: rest) →
  normalize_table (row0 :: r :: rest)
    = header_row (headers row0) <$> r :: rest
  ∧ (∀ idx (h : string), row0 !! idx = Some h →
       headers row0 !! idx
       = Some (if decide (h = "") then "col_" +:+ string_of_nat (idx + 1) else h))
  ∧ (∀ (row : list string) idx (h : string),
       headers row0 !! idx = Some h → h ≠ "__proto__" →
       (∀ j, idx < j → headers row0 !! j ≠ Some h) →
       header_row (headers row0) row !! h = Some (or_empty (row !! idx)))
  ∧ (∀ (row : list string) (k : string),
       is_Some (header_row (headers row0) row !! k) →
       k ∈ headers row0 ∧ k ≠ "__proto__").
Proof.
  intros Hn H. split; [|split; [|split]].
  - apply (normalize_table_header n); [lia|done].
  - intros idx h Hh. by rewrite headers_lookup, Hh, <- header_name_cases.
  - intros row idx h Hh Hp Hlast. unfold header_row.
    by rewrite (assign_cells_lookup_last 0 _ _ _ idx h).
  - intros row k Hk. split; [by eapply header_row_keys|].
    intros ->. unfold header_row in Hk.
    rewrite assign_cells_lookup_proto, lookup_empty in Hk. by destruct Hk.
Qed.

Lemma header_table_records_witness :
  rectangular 3 [["Day"; "Time"; "Room"]; ["TR"; "10:10-11:25"; "301"]]
  ∧ normalize_table [["Day"; "Time"; "Room"]; ["TR"; "10:10-11:25"; "301"]]
    = [ <["Day" := "TR"]> (<["Time" := "10:10-11:25"]> {[ "Room" := "301" ]}) ]
  ∧ header_row (headers ["Day"; "Time"; "Room"]) ["TR"; "10:10-11:25"; "301"]
      !! "Time" = Some "10:10-11:25".
Proof.
  assert (R : rectangular 3
    [["Day"; "Time"; "Room"]; ["TR"; "10:10-11:25"; "301"]])
    by (by repeat constructor).
  destruct (header_table_records 3 ["Day"; "Time"; "Room"]
              ["TR"; "10:10-11:25"; "301"] [] (le_n 3) R) as (E & _ & L & _).
  split; [exact R|]. split.
  - rewrite E. reflexivity.
  - apply (L ["TR"; "10:10-11:25"; "301"] 1%nat "Time"); [done|done|].
    intros [|[|[|j]]] ?; try lia; done.
Defined.

(** C6, as stated, fails: the placeholder only replaces empty header cells,
    so two columns with the same header text share one key, and the record
    of a row has fewer keys than the table has columns. *)
Lemma repeated_header_shares_key :
  rectangular 3 [["Day"; "Time"; "Time"]; ["TR"; "10:10"; "11:25"]]
  ∧ headers ["Day"; "Time"; "Time"] !! 1%nat
    = headers ["Day"; "Time"; "Time"] !! 2%nat
  ∧ ¬ NoDup (headers ["Day"; "Time"; "Time"])
  ∧ normalize_table [["Day"; "Time"; "Time"]; ["TR"; "10:10"; "11:25"]]
    = [ <["Day" := "TR"]> {[ "Time" := "11:25" ]} ].
Proof.
  split; [by repeat constructor|]. split; [done|]. split.
  - intros H. apply NoDup_cons in H as [_ H].
    apply NoDup_cons in H as [H _]. apply H. by left.
  - rewrite (normalize_table_header 3) by (done || by repeat constructor).
    reflexivity.
Qed.

(** ** Facts about sets of strings and fragments *)

Section SetFacts.

Lemma elem_of_set_add (s : list string) (x y : string) :
  y ∈ set_add s x ↔ y ∈ s ∨ y = x.
Proof.
  unfold set_add. case_decide as Hx.
  - split; [by left|]. intros [?| ->]; done.
  - rewrite elem_of_app, list_elem_of_singleton. done.
Qed.

Lemma set_add_fresh (s : list string) (x : string) :
  x ∉ s → set_add s x = s ++ [x].
Proof. intros H. unfold set_add. by rewrite decide_False. Qed.

Lemma set_add_present (s : list string) (x : string) :
  x ∈ s → set_add s x = s.
Proof. intros H. unfold set_add. by rewrite decide_True. Qed.

Lemma NoDup_set_add (s : list string) (x : string) :
  NoDup s → NoDup (set_add s x).
Proof.
  intros Hs. unfold set_add. case_decide as Hx; [done|].
  apply NoDup_app. split; [done|]. split; [|apply NoDup_singleton].
  intros y Hy ->%list_elem_of_singleton. done.
Qed.

Lemma elem_of_foldl_set_add (xs s : list string) (y : string) :
  y ∈ foldl set_add s xs ↔ y ∈ s ∨ y ∈ xs.
Proof.
  revert s. induction xs as [|x xs IH]; intros s; simpl.
  - split; [by left|]. intros [?|H]; [done|]. by apply elem_of_nil in H.
  - rewrite IH, elem_of_set_add, elem_of_cons. tauto.
Qed.

Lemma NoDup_foldl_set_add (xs s : list string) :
  NoDup s → NoDup (foldl set_add s xs).
Proof.
  revert s. induction xs as [|x xs IH]; intros s Hs; simpl; [done|].
  by apply IH, NoDup_set_add.
Qed.

Lemma elem_of_new_Set (xs : list string) (y : string) : y ∈ new_Set xs ↔ y ∈ xs.
Proof.
  unfold new_Set. rewrite elem_of_foldl_set_add. split; [|by right].
  intros [H|H]; [|done]. by apply elem_of_nil in H.
Qed.

Lemma NoDup_new_Set (xs : list string) : NoDup (new_Set xs).
Proof. apply NoDup_foldl_set_add, NoDup_nil_2. Qed.

Lemma before_hash_no_hash (s : string) : includes "#" (before_hash s) = false.
Proof.
  induction s as [|c t IH]; [reflexivity|].
  cbn [before_hash]. destruct (Ascii.eqb c "#") eqn:Ec; [reflexivity|].
  cbn [includes String.prefix]. rewrite IH.
  destruct (ascii_dec "#" c) as [<-|_]; [|done].
  by rewrite Ascii.eqb_refl in Ec.
Qed.

End SetFacts.

(** ** Link discovery *)

Section DiscoveryFacts.

Variable url_href : string → string → option string.

Lemma mapM_recover (tCode : string) (frames : list Context) :
  mapM (λ f, recover (grab url_href tCode f) []) frames
  = Some (links_of url_href tCode <$> frames).
Proof.
  induction frames as [|f frames IH]; [done|].
  cbn [mapM]. rewrite IH. reflexivity.
Qed.

Lemma discoverCourseLinks_eq (page : Context) (frames : list Context)
    (tCode : string) :
  discoverCourseLinks url_href page frames tCode
  = Some (new_Set (links_of url_href tCode page ++ mjoin (links_of url_href tCode <$> frames))).
Proof.
  unfold discoverCourseLinks. cbn [recover mbind option_bind].
  rewrite mapM_recover. reflexivity.
Qed.

Lemma elem_of_grab_in (tCode : string) (doc : Document) (u : string) :
  u ∈ grab_in url_href tCode doc ↔
  u ≠ "" ∧ ∃ href u', href ∈ anchors doc ∧ wanted tCode href = true
                      ∧ url_href href (origin doc) = Some u'
                      ∧ u = before_hash u'.
Proof.
  unfold grab_in. rewrite elem_of_new_Set, list_elem_of_filter.
  rewrite list_elem_of_fmap. split.
  - intros [Hu (href & -> & Hh)]. apply list_elem_of_filter in Hh as [Hw Hh].
    apply Is_true_eq_true in Hu, Hw. apply truthy_true in Hu.
    split; [done|]. unfold resolve in *.
    destruct (url_href href (origin doc)) as [u'|] eqn:E; [|done].
    by exists href, u'.
  - intros [Hu (href & u' & Hh & Hw & E & ->)]. split.
    + apply Is_true_eq_left. by apply truthy_true.
    + exists href. split; [unfold resolve; by rewrite E|].
      apply list_elem_of_filter. split; [by apply Is_true_eq_left|done].
Qed.

Lemma elem_of_links_of (tCode : string) (ctx : Context) (u : string) :
  u ∈ links_of url_href tCode ctx ↔ ∃ doc, ctx = Some doc ∧ u ∈ grab_in url_href tCode doc.
Proof.
  destruct ctx as [doc|]; cbn.
  - split; [by exists doc|]. by intros (? & [= <-] & ?).
  - split; [by intros ?%elem_of_nil|]. by intros (? & ? & _).
Qed.

Lemma elem_of_discovered (page : Context) (frames : list Context)
    (tCode u : string) :
  u ∈ new_Set (links_of url_href tCode page ++ mjoin (links_of url_href tCode <$> frames)) ↔
  ∃ doc, (page = Some doc ∨ Some doc ∈ frames) ∧ u ∈ grab_in url_href tCode doc.
Proof.
  rewrite elem_of_new_Set, elem_of_app, list_elem_of_join. split.
  - intros [H|(ls & Hu & Hls)].
    + apply elem_of_links_of in H as (doc & -> & H). exists doc. by split; [left|].
    + apply list_elem_of_fmap in Hls as (ctx & -> & Hctx).
      apply elem_of_links_of in Hu as (doc & -> & H). exists doc. by split; [right|].
  - intros (doc & [->|Hdoc] & H).
    + left. apply elem_of_links_of. by exists doc.
    + right. exists (links_of url_href tCode (Some doc)). split.
      * apply elem_of_links_of. by exists doc.
      * apply list_elem_of_fmap. by exists (Some doc).
Qed.

(** An anchor that fails the filter, or whose reference does not parse, can
    be taken out of the document without changing what [grab] returns. *)
Lemma grab_in_dropped (tCode o : string) (pre post : list string) (href : string) :
  wanted tCode href = false ∨ url_href href o = None →
  grab_in url_href tCode {| origin := o; anchors := pre ++ href :: post |}
  = grab_in url_href tCode {| origin := o; anchors := pre ++ post |}.
Proof.
  intros H. unfold grab_in. cbn [origin anchors]. f_equal.
  rewrite !filter_app, !fmap_app, !filter_app. f_equal.
  destruct (wanted tCode href) eqn:Hw.
  - destruct H as [|E]; [done|].
    rewrite (filter_cons_True _ href) by (by rewrite Hw).
    rewrite fmap_cons. unfold resolve at 1. rewrite E.
    by rewrite filter_cons_False by (cbn; tauto).
  - by rewrite (filter_cons_False _ href) by (rewrite Hw; cbn; tauto).
Qed.

End DiscoveryFacts.

Section DiscoveryClaims.

Variable url_href : string → string → option string.


(** C8, amended.  In each context the extraction predicate resolves every
    [href] that passes the filter against the origin of that context's own
    location, cuts the result at the first '#', drops what does not parse,
    and returns the strings so obtained without duplicates.  The pass
    returns a list without duplicates whose members are exactly such
    strings from the top document or a frame; none of them contains a '#'.
    Two contexts whose links resolve to the same URL but for the fragment
    give one entry, without the fragment. *)
Theorem discovery_resolves_strips_and_dedups
    (page : Context) (frames : list Context) (tCode : string) :
  (∃ links : list string,
     discoverCourseLinks url_href page frames tCode = Some links
     ∧ NoDup links
     ∧ (∀ u : string, u ∈ links ↔
          u ≠ "" ∧ ∃ (doc : Document) (href u' : string),
            (page = Some doc ∨ Some doc ∈ frames)
            ∧ href ∈ anchors doc
            ∧ wanted tCode href = true
            ∧ url_href href (origin doc) = Some u'
            ∧ u = before_hash u')
     ∧ (∀ u : string, u ∈ links → includes "#" u = false))
  ∧ (∀ doc : Document,
       NoDup (grab_in url_href tCode doc)
       ∧ ∀ u : string, u ∈ grab_in url_href tCode doc ↔
           u ≠ "" ∧ ∃ href u' : string,
             href ∈ anchors doc
             ∧ wanted tCode href = true
             ∧ url_href href (origin doc) = Some u'
             ∧ u = before_hash u')
  ∧ (∀ (o : string) (pre post : list string) (href : string),
       url_href href o = None →
       grab_in url_href tCode {| origin := o; anchors := pre ++ href :: post |}
       = grab_in url_href tCode {| origin := o; anchors := pre ++ post |})
  ∧ (∀ (o1 o2 h1 h2 u1 u2 : string),
       wanted tCode h1 = true → wanted tCode h2 = true →
       url_href h1 o1 = Some u1 → url_href h2 o2 = Some u2 →
       before_hash u1 = before_hash u2 → before_hash u1 ≠ "" →
       discoverCourseLinks url_href None
         [Some {| origin := o1; anchors := [h1] |};
          Some {| origin := o2; anchors := [h2] |}] tCode
       = Some [before_hash u1]).
Proof.
  split; [|split; [|split]].
  - eexists. split; [apply discoverCourseLinks_eq|].
    split; [apply NoDup_new_Set|]. split.
    + intros u. rewrite elem_of_discovered. split.
      * intros (doc & Hdoc & Hu).
        apply elem_of_grab_in in Hu as (Hne & href & u' & Hh & Hw & E & ->).
        split; [done|]. by exists doc, href, u'.
      * intros (Hne & doc & href & u' & Hdoc & Hh & Hw & E & ->).
        exists doc. split; [done|]. apply elem_of_grab_in.
        split; [done|]. by exists href, u'.
    + intros u (doc & _ & Hu)%elem_of_discovered.
      apply elem_of_grab_in in Hu as (_ & href & u' & _ & _ & _ & ->).
      apply before_hash_no_hash.
  - intros doc. split; [apply NoDup_new_Set|]. apply elem_of_grab_in.
  - intros o pre post href E. apply grab_in_dropped. by right.
  - intros o1 o2 h1 h2 u1 u2 Hw1 Hw2 E1 E2 Hsame Hne.
    rewrite discoverCourseLinks_eq. f_equal.
    apply truthy_true in Hne.
    cbn [links_of grab catch fmap option_fmap option_map default list_fmap
         mjoin list_join app].
    unfold grab_in. cbn [origin anchors].
    rewrite !filter_cons_True, !filter_nil by (by rewrite ?Hw1, ?Hw2).
    cbn [fmap list_fmap]. unfold resolve. rewrite E1, E2, <- Hsame.
    rewrite !filter_cons_True, !filter_nil by (by rewrite Hne).
    unfold new_Set. cbn [foldl app].
    rewrite (set_add_fresh []) by (by intros ?%elem_of_nil). cbn [app].
    apply set_add_present. by left.
Qed.

(** C9.  The pass always returns.  A frame whose evaluation fails can be
    left out of the list of frames without changing the result, and so can a
    failing top document be replaced by one without anchors; every link that
    [grab] finds in a context that does evaluate is in the result. *)
Theorem failing_context_contributes_nothing
    (page : Context) (frames : list Context) (tCode : string) :
  (∃ links : list string,
     discoverCourseLinks url_href page frames tCode = Some links
     ∧ ∀ (doc : Document) (u : string),
         page = Some doc ∨ Some doc ∈ frames →
         u ∈ grab_in url_href tCode doc → u ∈ links)
  ∧ grab url_href tCode None = None
  ∧ (∀ frames1 frames2 : list Context,
       frames = frames1 ++ None :: frames2 →
       discoverCourseLinks url_href page frames tCode
       = discoverCourseLinks url_href page (frames1 ++ frames2) tCode)
  ∧ (∀ o : string,
       discoverCourseLinks url_href None frames tCode
       = discoverCourseLinks url_href
           (Some {| origin := o; anchors := [] |}) frames tCode).
Proof.
  split; [|split; [done|split]].
  - eexists. split; [apply discoverCourseLinks_eq|].
    intros doc u Hdoc Hu. apply elem_of_discovered. by exists doc.
  - intros frames1 frames2 ->. rewrite !discoverCourseLinks_eq.
    rewrite !fmap_app, fmap_cons, !join_app. reflexivity.
  - intros o. rewrite !discoverCourseLinks_eq. reflexivity.
Qed.

End DiscoveryClaims.

(** ** Concrete pages *)

Section DiscoveryExamples.



(** C8, as stated, fails: the base of the resolution is [location.origin],
    not the location.  For a frame at /sel/COMS_Fall2025.html a relative
    reference is resolved from the root of the site, and the link returned
    is not its absolute form against the frame's own location. *)
Lemma relative_link_resolved_from_site_root :
  origin_of "https://doc.sis.columbia.edu/sel/COMS_Fall2025.html" = Some BASE
  ∧ grab_in url_of_relative_reference TERM_CODE
      {| origin := BASE; anchors := ["a/subj/COMS/W4701-20253-001/"] |}
    = ["https://doc.sis.columbia.edu/a/subj/COMS/W4701-20253-001/"]
  ∧ url_of_relative_reference "a/subj/COMS/W4701-20253-001/"
      "https://doc.sis.columbia.edu/sel/COMS_Fall2025.html"
    = Some "https://doc.sis.columbia.edu/sel/a/subj/COMS/W4701-20253-001/"
  ∧ "https://doc.sis.columbia.edu/sel/a/subj/COMS/W4701-20253-001/"
    ∉ grab_in url_of_relative_reference TERM_CODE
        {| origin := BASE; anchors := ["a/subj/COMS/W4701-20253-001/"] |}.
Proof.
  split; [vm_compute; reflexivity|]. split; [vm_compute; reflexivity|].
  split; [vm_compute; reflexivity|].
  replace (grab_in url_of_relative_reference TERM_CODE
             {| origin := BASE; anchors := ["a/subj/COMS/W4701-20253-001/"] |})
    with ["https://doc.sis.columbia.edu/a/subj/COMS/W4701-20253-001/"]
    by (vm_compute; reflexivity).
  intros H%list_elem_of_singleton. discriminate H.
Qed.

Lemma discovery_resolves_strips_and_dedups_witness :
  discoverCourseLinks url_of_simple_reference None
    [Some {| origin := BASE;
             anchors := ["/subj/COMS/W4701-20253-001/#top"] |};
     Some {| origin := BASE;
             anchors := ["/subj/COMS/W4701-20253-001/"] |}]
    TERM_CODE
  = Some ["https://doc.sis.columbia.edu/subj/COMS/W4701-20253-001/"]
  ∧ NoDup (grab_in url_of_simple_reference TERM_CODE
             {| origin := BASE;
                anchors := ["/subj/COMS/W4701-20253-001/#top";
                            "/subj/COMS/W4701-20253-001/"] |})
  ∧ grab_in url_of_simple_reference TERM_CODE
      {| origin := BASE;
         anchors := ["/subj/COMS/W4701-20253-001/#top";
                     "/subj/COMS/W4701-20253-001/"] |}
    = ["https://doc.sis.columbia.edu/subj/COMS/W4701-20253-001/"].
Proof.
  destruct (discovery_resolves_strips_and_dedups
              url_of_simple_reference None [] TERM_CODE) as (_ & G & _ & D).
  split; [|split].
  - apply (D BASE BASE
             "/subj/COMS/W4701-20253-001/#top" "/subj/COMS/W4701-20253-001/"
             "https://doc.sis.columbia.edu/subj/COMS/W4701-20253-001/#top"
             "https://doc.sis.columbia.edu/subj/COMS/W4701-20253-001/");
      (reflexivity || done).
  - apply G.
  - vm_compute. reflexivity.
Defined.

Lemma failing_context_contributes_nothing_witness :
  discoverCourseLinks url_of_simple_reference None
    [None; Some {| origin := BASE;
                   anchors := ["/subj/COMS/W4701-20253-001/"] |}; None]
    TERM_CODE
  = discoverCourseLinks url_of_simple_reference None
      ([None] ++ [Some {| origin := BASE;
                   anchors := ["/subj/COMS/W4701-20253-001/"] |}])
      TERM_CODE
  ∧ ∃ links : list string,
      discoverCourseLinks url_of_simple_reference None
        [None; Some {| origin := BASE;
                       anchors := ["/subj/COMS/W4701-20253-001/"] |}; None]
        TERM_CODE = Some links
      ∧ "https://doc.sis.columbia.edu/subj/COMS/W4701-20253-001/" ∈ links.
Proof.
  destruct (failing_context_contributes_nothing url_of_simple_reference None
    [None; Some {| origin := BASE;
                   anchors := ["/subj/COMS/W4701-20253-001/"] |}; None]
    TERM_CODE) as ((links & E & Hin) & _ & Hdrop & _).
  split.
  - apply (Hdrop [None; Some {| origin := BASE;
                   anchors := ["/subj/COMS/W4701-20253-001/"] |}] []).
    reflexivity.
  - exists links. split; [exact E|].
    apply (Hin {| origin := BASE;
                  anchors := ["/subj/COMS/W4701-20253-001/"] |}).
    + right. right. left.
    + vm_compute. left.
Defined.

End DiscoveryExamples.

(** ** Ragged matrices: the width and the padding *)

Section RaggedFacts.

Lemma max2_fold (a : nat) (xs : list nat) :
  ∃ n, foldl max2 (Num a) xs = Num n ∧ (a ≤ n)%nat
       ∧ Forall (λ x, (x ≤ n)%nat) xs ∧ (n = a ∨ n ∈ xs).
Proof.
  revert a. induction xs as [|x xs IH]; intros a.
  - exists a. repeat split; [done|constructor|by left].
  - destruct (IH (Nat.max a x)) as (n & E & Hle & Hall & Hin).
    exists n. cbn [foldl max2]. split; [done|]. split; [lia|]. split.
    + constructor; [lia|done].
    + destruct Hin as [->|Hin]; [|right; by right].
      destruct (Nat.max_spec a x) as [[_ ->]|[_ ->]]; [right; by left|by left].
Qed.

Lemma or_empty_lookup_padded (r : list string) (k i : nat) :
  or_empty ((r ++ replicate k "") !! i) = or_empty (r !! i).
Proof.
  destruct (decide (i < length r)%nat) as [Hi|Hi].
  - by rewrite lookup_app_l.
  - rewrite lookup_app_r by lia. rewrite (lookup_ge_None_2 r i) by lia.
    destruct (replicate k "" !! (i - length r)%nat) as [c|] eqn:E; [|done].
    by apply lookup_replicate in E as [-> _].
Qed.

Lemma pad_row_short (n : nat) (r : list string) :
  (length r ≤ n)%nat → pad_row (Num n) r = r ++ replicate (n - length r) "".
Proof.
  intros H. unfold pad_row, slice0. rewrite take_ge by done.
  apply push_empty_app.
Qed.

Lemma label_value_row_padded (r : list string) (k : nat) :
  label_value_row (r ++ replicate k "") = label_value_row r.
Proof. unfold label_value_row. by rewrite !or_empty_lookup_padded. Qed.

Lemma assign_cells_padded idx hs (r : list string) (k : nat) (obj : CourseRow) :
  assign_cells idx hs (r ++ replicate k "") obj = assign_cells idx hs r obj.
Proof.
  revert idx obj. induction hs as [|h hs IH]; intros idx obj; [done|].
  cbn [assign_cells]. by rewrite or_empty_lookup_padded, IH.
Qed.

Lemma colCount_cons (row0 : list string) (rest : list (list string)) :
  ∃ n, colCount (row0 :: rest) = Num n
       ∧ Forall (λ r, (length r ≤ n)%nat) (row0 :: rest)
       ∧ ∃ r, r ∈ row0 :: rest ∧ length r = n.
Proof.
  unfold colCount, math_max. cbn [fmap list_fmap foldl max2].
  destruct (max2_fold (length row0) (length <$> rest)) as (n & E & Hle & Hall & Hin).
  exists n. split; [done|]. split.
  - constructor; [done|]. by apply Forall_fmap in Hall.
  - destruct Hin as [->|Hin]; [exists row0; split; [by left|done]|].
    apply list_elem_of_fmap in Hin as (r & -> & Hr).
    exists r. split; [by right|done].
Qed.

Lemma norm_lookup (n : nat) (matrix : list (list string)) (i : nat)
    (r : list string) :
  colCount matrix = Num n → matrix !! i = Some r →
  (length r ≤ n)%nat
  ∧ norm matrix !! i = Some (r ++ replicate (n - length r) "").
Proof.
  intros E Hi. destruct matrix as [|row0 rest]; [done|].
  destruct (colCount_cons row0 rest) as (n' & E' & Hall & _).
  rewrite E in E'. injection E' as <-.
  assert (Hr : (length r ≤ n)%nat).
  { eapply Forall_forall in Hall; [exact Hall|]. by eapply list_elem_of_lookup_2. }
  split; [done|]. unfold norm. rewrite list_lookup_fmap, Hi, E.
  cbn [fmap option_fmap option_map]. by rewrite pad_row_short.
Qed.

Lemma norm_rows (n : nat) (matrix : list (list string)) :
  colCount matrix = Num n →
  Forall2 (λ r r', r' = r ++ replicate (n - length r) "") matrix (norm matrix).
Proof.
  intros E. apply Forall2_same_length_lookup_2.
  - unfold norm. by rewrite length_fmap.
  - intros i r r' Hr Hr'.
    destruct (norm_lookup n matrix i r E Hr) as [_ H]. congruence.
Qed.

Lemma bind_label_value_padded (n : nat) (m m' : list (list string)) :
  Forall2 (λ r r', r' = r ++ replicate (n - length r) "") m m' →
  m' ≫= label_value_row = m ≫= label_value_row.
Proof.
  induction 1 as [|r r' m m' -> _ IH]; [done|].
  by rewrite !bind_cons, label_value_row_padded, IH.
Qed.

Lemma fmap_header_row_padded (n : nat) hs (m m' : list (list string)) :
  Forall2 (λ r r', r' = r ++ replicate (n - length r) "") m m' →
  header_row hs <$> m' = header_row hs <$> m.
Proof.
  induction 1 as [|r r' m m' -> _ IH]; [done|].
  rewrite !fmap_cons, IH. unfold header_row. by rewrite assign_cells_padded.
Qed.

End RaggedFacts.

(** X1.  The column count is the length of a longest row: no row is longer
    and some row is that long.  Only the matrix without rows has the
    count [-Infinity]. *)
Theorem colCount_is_widest_row (matrix : list (list string)) :
  (colCount matrix = NegInfinity ↔ matrix = [])
  ∧ (∀ n : nat, colCount matrix = Num n →
       (∀ r : list string, r ∈ matrix → (length r ≤ n)%nat)
       ∧ ∃ r : list string, r ∈ matrix ∧ length r = n).
Proof.
  destruct matrix as [|row0 rest].
  - split; [done|]. intros n [=].
  - destruct (colCount_cons row0 rest) as (n & E & Hall & Hex).
    split; [rewrite E; split; done|].
    intros n' E'. rewrite E in E'. injection E' as <-. split; [|done].
    intros r Hr. eapply Forall_forall in Hall; [exact Hall|done].
Qed.

(** X2.  Normalizing the row lengths keeps the number of rows, gives every
    row the width of the longest one, and changes a row only by adding empty
    cells at its end: no cell is dropped or moved. *)
Theorem norm_pads_to_width (n : nat) (matrix : list (list string)) :
  colCount matrix = Num n →
  length (norm matrix) = length matrix
  ∧ rectangular n (norm matrix)
  ∧ (∀ (i : nat) (r : list string), matrix !! i = Some r →
       norm matrix !! i = Some (r ++ replicate (n - length r) "")).
Proof.
  intros E. split; [unfold norm; by rewrite length_fmap|]. split.
  - apply Forall_lookup. intros i r' Hr'.
    destruct (matrix !! i) as [r|] eqn:Hr.
    + destruct (norm_lookup n matrix i r E Hr) as [Hle H].
      rewrite H in Hr'. injection Hr' as <-.
      rewrite length_app, length_replicate. lia.
    + unfold norm in Hr'. by rewrite list_lookup_fmap, Hr in Hr'.
  - intros i r Hr. by destruct (norm_lookup n matrix i r E Hr).
Qed.

Lemma norm_pads_to_width_witness :
  colCount [["a"]; ["b"; "c"; "d"]; []] = Num 3
  ∧ norm [["a"]; ["b"; "c"; "d"]; []]
    = [["a"; ""; ""]; ["b"; "c"; "d"]; [""; ""; ""]].
Proof.
  assert (E : colCount [["a"]; ["b"; "c"; "d"]; []] = Num 3) by reflexivity.
  split; [exact E|].
  destruct (norm_pads_to_width 3 _ E) as (_ & _ & H).
  apply list_eq. intros [|[|[|i]]].
  - by rewrite (H 0%nat ["a"]).
  - by rewrite (H 1%nat ["b"; "c"; "d"]).
  - by rewrite (H 2%nat []).
  - reflexivity.
Defined.

Lemma norm_involutive (matrix : list (list string)) :
  colCount (norm matrix) = colCount matrix ∧ norm (norm matrix) = norm matrix.
Proof.
  destruct matrix as [|row0 rest]; [done|].
  destruct (colCount_cons row0 rest) as (n & E & _ & _).
  destruct (norm_pads_to_width n _ E) as (_ & Hrect & _).
  change (norm (row0 :: rest))
    with (pad_row (colCount (row0 :: rest)) row0
          :: (pad_row (colCount (row0 :: rest)) <$> rest)) in *.
  rewrite (colCount_rectangular n _ _ Hrect), (norm_rectangular n _ _ Hrect).
  by rewrite E.
Qed.

(** X3.  Rows that have been brought to one length beforehand give the same
    records: the normalizer may be handed the ragged matrix or the padded
    one. *)
Theorem normalize_table_of_norm (matrix : list (list string)) :
  normalize_table (norm matrix) = normalize_table matrix.
Proof.
  unfold normalize_table.
  destruct (norm_involutive matrix) as [-> ->]. reflexivity.
Qed.

Lemma call_number_rows_padded (row0 : list string) (k : nat)
    (rest rest' : list (list string)) :
  call_number_rows ((row0 ++ replicate k "") :: rest')
  = call_number_rows (row0 :: rest).
Proof.
  unfold call_number_rows.
  change (default [] (((row0 ++ replicate k "") :: rest') !! 0%nat))
    with (row0 ++ replicate k "").
  change (default [] ((row0 :: rest) !! 0%nat)) with row0.
  by rewrite !or_empty_lookup_padded.
Qed.

(** X4.  In a table whose longest row has two cells, short rows are read as
    if their missing cells were empty: the records are those of the
    label/value reading of the rows as they are.  A row with one cell [x]
    gives [{ x: "" }] and a row without cells gives nothing. *)
Theorem two_column_table_ragged (matrix : list (list string)) :
  colCount matrix = Num 2 →
  normalize_table matrix = label_value_rows matrix
  ∧ (∀ x : string, label_value_row [x] = if decide (x = "") then [] else [ {[ x := "" ]} ])
  ∧ label_value_row [] = [].
Proof.
  intros E. split; [|split; [|done]].
  - unfold normalize_table. rewrite E, decide_True by done.
    pose proof (norm_rows 2 matrix E) as H.
    destruct H as [|row0 row0' rest rest' -> H]; [done|].
    rewrite !label_value_rows_cons.
    rewrite (call_number_rows_padded row0 _ rest rest').
    by rewrite (bind_label_value_padded 2 rest rest').
  - intros x. destruct (decide (x = "")) as [->|Hx]; [done|].
    apply truthy_true in Hx.
    change (label_value_row [x])
      with (if truthy x then [ ({[ x := "" ]} : CourseRow) ] else []).
    by rewrite Hx.
Qed.

Lemma two_column_table_ragged_witness :
  colCount [["98765"; "Call Number"]; ["Lecture"]; []] = Num 2
  ∧ normalize_table [["98765"; "Call Number"]; ["Lecture"]; []]
    = [ {[ "Call Number" := "98765" ]}; {[ "Lecture" := "" ]} ].
Proof.
  assert (E : colCount [["98765"; "Call Number"]; ["Lecture"]; []] = Num 2)
    by reflexivity.
  split; [exact E|].
  destruct (two_column_table_ragged _ E) as (H & _ & _).
  rewrite H. reflexivity.
Defined.

(** X5.  In a table of two or more rows whose longest row has a number of
    cells [n] other than two, the padding shows only in the first row: the
    field names are those of the first row extended with empty cells up to
    [n] (hence "col_N" for the columns that the first row lacks), and every
    later row is read as it is, a cell it lacks being the empty string. *)
Theorem header_table_ragged
    (n : nat) (row0 r : list string) (rest : list (list string)) :
  colCount (row0 :: r :: rest) = Num n → n ≠ 2 →
  normalize_table (row0 :: r :: rest)
  = header_row (headers (row0 ++ replicate (n - length row0) "")) <$> r :: rest.
Proof.
  intros E Hn. unfold normalize_table.
  rewrite E, decide_False by congruence.
  pose proof (norm_rows n _ E) as H.
  rewrite decide_True
    by (apply Forall2_length in H; rewrite <- H; simpl; lia).
  apply Forall2_cons_inv_l in H as (row0' & rest' & -> & H' & ->).
  unfold header_rows.
  change (default [] (((row0 ++ replicate (n - length row0) "") :: rest') !! 0%nat))
    with (row0 ++ replicate (n - length row0) "").
  change (drop 1 ((row0 ++ replicate (n - length row0) "") :: rest')) with rest'.
  by apply (fmap_header_row_padded n).
Qed.

Lemma header_table_ragged_witness :
  colCount [["Day"]; ["TR"; "10:10"; "301"]; ["F"]] = Num 3
  ∧ normalize_table [["Day"]; ["TR"; "10:10"; "301"]; ["F"]]
    = [ <["Day" := "TR"]> (<["col_2" := "10:10"]> {[ "col_3" := "301" ]});
        <["Day" := "F"]> (<["col_2" := ""]> {[ "col_3" := "" ]}) ].
Proof.
  assert (E : colCount [["Day"]; ["TR"; "10:10"; "301"]; ["F"]] = Num 3)
    by reflexivity.
  split; [exact E|].
  rewrite (header_table_ragged 3 _ _ _ E) by done. vm_compute. reflexivity.
Defined.

Lemma label_value_row_length (row : list string) :
  (length (label_value_row row) ≤ 1)%nat.
Proof. unfold label_value_row. destruct (truthy _); simpl; lia. Qed.

Lemma bind_label_value_row_length (m : list (list string)) :
  (length (m ≫= label_value_row) ≤ length m)%nat.
Proof.
  induction m as [|r m IH]; [done|].
  rewrite bind_cons, length_app. pose proof (label_value_row_length r).
  simpl. lia.
Qed.

(** X6.  A table never gives more records than it has rows; read as a header
    table (a width other than two, two rows or more) it gives exactly one
    record for each row behind the first. *)
Theorem record_count_bounded (matrix : list (list string)) :
  (length (normalize_table matrix) ≤ length matrix)%nat
  ∧ (colCount matrix ≠ Num 2 → (2 ≤ length matrix)%nat →
     length (normalize_table matrix) = (length matrix - 1)%nat).
Proof.
  unfold normalize_table. assert (Hlen : length (norm matrix) = length matrix)
    by (unfold norm; by rewrite length_fmap).
  split.
  - case_decide as E.
    + destruct (norm matrix) as [|row0 rest] eqn:Hn.
      { destruct matrix; [done|]. discriminate Hn. }
      rewrite label_value_rows_cons, length_app, <- Hlen.
      pose proof (bind_label_value_row_length rest).
      unfold call_number_rows. destruct (_ && _); simpl; lia.
    + case_decide; [|simpl; lia].
      unfold header_rows. rewrite length_fmap, length_drop. lia.
  - intros E H2. rewrite decide_False by done.
    rewrite decide_True by lia.
    unfold header_rows. rewrite length_fmap, length_drop. lia.
Qed.

Lemma record_count_bounded_witness :
  colCount [["A"; "B"; "C"]; ["1"]; []; ["2"; "3"]] ≠ Num 2
  ∧ length (normalize_table [["A"; "B"; "C"]; ["1"]; []; ["2"; "3"]]) = 3%nat.
Proof.
  assert (E : colCount [["A"; "B"; "C"]; ["1"]; []; ["2"; "3"]] ≠ Num 2)
    by (by intros [=]).
  split; [exact E|].
  apply (proj2 (record_count_bounded _) E). simpl. lia.
Defined.

Lemma obj_set_dom (k v : string) (obj : CourseRow) :
  dom (obj_set k v obj) = dom obj ∪ ({[ k ]} ∖ {[ "__proto__" ]}).
Proof.
  unfold obj_set. case_decide as Hk.
  - subst. set_solver.
  - rewrite dom_insert_L. set_solver.
Qed.

Lemma assign_cells_dom idx hs (r : list string) (obj : CourseRow) :
  dom (assign_cells idx hs r obj)
  = dom obj ∪ (list_to_set hs ∖ {[ "__proto__" ]}).
Proof.
  revert idx obj. induction hs as [|h hs IH]; intros idx obj.
  - cbn. set_solver.
  - cbn [assign_cells]. rewrite IH, obj_set_dom. cbn [list_to_set]. set_solver.
Qed.

(** X7.  All the records of a header table have the same keys, whatever the
    rows hold: the field names of the first row, "__proto__" left out. *)
Theorem header_records_share_keys
    (n : nat) (row0 r : list string) (rest : list (list string)) (rec : CourseRow) :
  colCount (row0 :: r :: rest) = Num n → n ≠ 2 →
  rec ∈ normalize_table (row0 :: r :: rest) →
  dom rec
  = list_to_set (headers (row0 ++ replicate (n - length row0) ""))
    ∖ {[ "__proto__" ]}.
Proof.
  intros E Hn. rewrite (header_table_ragged n _ _ _ E Hn).
  intros (row & -> & _)%list_elem_of_fmap.
  unfold header_row. rewrite assign_cells_dom, dom_empty_L. set_solver.
Qed.

Lemma header_records_share_keys_witness :
  dom (<["Day" := "F"]> (<["col_2" := ""]> ({[ "col_3" := "" ]} : CourseRow)))
  = list_to_set (headers (["Day"] ++ replicate (3 - length ["Day"]) ""))
    ∖ {[ "__proto__" ]}.
Proof.
  apply (header_records_share_keys 3 ["Day"] ["TR"; "10:10"; "301"] [["F"]]).
  - reflexivity.
  - done.
  - rewrite (header_table_ragged 3) by done.
    right. left.
Defined.

(** ** Field names of a header table *)

Section HeaderNames.

Lemma header_branch_records
    (n : nat) (row0 r : list string) (rest : list (list string)) (rec : CourseRow) :
  colCount (row0 :: r :: rest) = Num n → n ≠ 2 →
  rec ∈ normalize_table (row0 :: r :: rest) →
  ∃ row : list string,
    rec = header_row (headers (row0 ++ replicate (n - length row0) "")) row.
Proof.
  intros E Hn. unfold normalize_table.
  rewrite E, decide_False by congruence.
  assert (Hlen : length (norm (row0 :: r :: rest)) = length (row0 :: r :: rest))
    by (unfold norm; by rewrite length_fmap).
  rewrite decide_True by (rewrite Hlen; simpl; lia).
  unfold header_rows.
  destruct (norm_lookup n (row0 :: r :: rest) 0 row0 E eq_refl) as [_ ->].
  cbn [default]. intros (row & -> & _)%list_elem_of_fmap. by exists row.
Qed.

Lemma headers_collide_iff (row : list string) :
  NoDup (headers row)
  ↔ (∀ (i j : nat) (a : string),
       i ≠ j → row !! i = Some a → row !! j = Some a → a = "")
    ∧ (∀ (i j : nat) (a : string),
         row !! i = Some "" → row !! j = Some a →
         a ≠ "col_" +:+ string_of_nat (i + 1)).
Proof.
  split.
  - intros Hnd. split.
    + intros i j a Hij Hi Hj. destruct (decide (a = "")) as [|Ha]; [done|].
      exfalso. apply Hij. apply (NoDup_lookup _ i j a Hnd);
        rewrite headers_lookup, ?Hi, ?Hj; cbn [fmap option_fmap option_map];
        by rewrite header_name_cases, decide_False.
    + intros i j a Hi Hj ->.
      assert (Hij : i ≠ j).
      { intros ->. rewrite Hi in Hj. by injection Hj. }
      apply Hij.
      apply (NoDup_lookup _ i j ("col_" +:+ string_of_nat (i + 1)) Hnd);
        rewrite headers_lookup, ?Hi, ?Hj; cbn [fmap option_fmap option_map];
        rewrite header_name_cases; [by rewrite decide_True|].
      by rewrite decide_False.
  - intros [Hdistinct Hfresh]. apply NoDup_alt. intros i j k Hi Hj.
    rewrite headers_lookup in Hi, Hj.
    destruct (row !! i) as [a|] eqn:Ea; [|done].
    destruct (row !! j) as [b|] eqn:Eb; [|done].
    apply (inj Some) in Hi, Hj.
    rewrite header_name_cases in Hi, Hj.
    destruct (decide (i = j)) as [|Hij]; [done|exfalso].
    destruct (decide (a = "")) as [->|Ha], (decide (b = "")) as [->|Hb].
    + rewrite <- Hj in Hi. apply placeholder_inj, string_of_nat_inj in Hi. lia.
    + subst. by eapply (Hfresh i j).
    + subst. by eapply (Hfresh j i).
    + subst. apply Hb. by eapply (Hdistinct i j).
Qed.

Lemma not_NoDup_collision (l : list string) :
  ¬ NoDup l →
  ∃ (i j : nat) (h : string), i ≠ j ∧ l !! i = Some h ∧ l !! j = Some h.
Proof.
  induction l as [|x l IH]; intros Hnd.
  - destruct Hnd. constructor.
  - destruct (decide (x ∈ l)) as [Hx|Hx].
    + apply list_elem_of_lookup in Hx as (j & Hj). by exists 0%nat, (S j), x.
    + destruct IH as (i & j & h & Hij & Hi & Hj).
      * intros H. apply Hnd. by constructor.
      * exists (S i), (S j), h. split; [lia|done].
Qed.

End HeaderNames.

(** C6, amended.  In every table read as a header table (two rows or more,
    the longest row of a length [n] other than two) the field names are
    those of the first row padded to [n] cells.  No key of a record is the
    empty string, and every key is one of the field names.  The
    placeholders of two different empty header cells differ.  The field
    names of all the columns are pairwise different exactly when the
    non-empty header cells are pairwise different and none of them is the
    placeholder of an empty one; otherwise two columns share a key. *)
Theorem header_keys_nonempty_placeholders_distinct
    (n : nat) (row0 r : list string) (rest : list (list string)) :
  colCount (row0 :: r :: rest) = Num n → n ≠ 2 →
  let hrow := row0 ++ replicate (n - length row0) "" in
  (∀ (rec : CourseRow) (k : string),
     rec ∈ normalize_table (row0 :: r :: rest) → is_Some (rec !! k) →
     k ∈ headers hrow ∧ k ≠ "")
  ∧ (∀ i j : nat, i ≠ j → hrow !! i = Some "" → hrow !! j = Some "" →
       headers hrow !! i ≠ headers hrow !! j)
  ∧ (NoDup (headers hrow)
     ↔ (∀ (i j : nat) (a : string),
          i ≠ j → hrow !! i = Some a → hrow !! j = Some a → a = "")
       ∧ (∀ (i j : nat) (a : string),
            hrow !! i = Some "" → hrow !! j = Some a →
            a ≠ "col_" +:+ string_of_nat (i + 1)))
  ∧ (¬ NoDup (headers hrow)
     ↔ ∃ (i j : nat) (h : string),
         i ≠ j ∧ headers hrow !! i = Some h ∧ headers hrow !! j = Some h).
Proof.
  intros E Hn hrow. split; [|split; [|split]].
  - intros rec k Hrec Hk.
    destruct (header_branch_records n row0 r rest rec E Hn Hrec) as (row & ->).
    apply header_row_keys in Hk. split; [done|]. by eapply headers_nonempty.
  - intros i j Hij Hi Hj. rewrite !headers_lookup, Hi, Hj.
    cbn [fmap option_fmap option_map]. rewrite !header_name_cases.
    rewrite !decide_True by done. intros E'%(inj Some).
    apply placeholder_inj, string_of_nat_inj in E'. lia.
  - apply headers_collide_iff.
  - split.
    + apply not_NoDup_collision.
    + intros (i & j & h & Hij & Hi & Hj) Hnd.
      apply Hij. by apply (NoDup_lookup _ i j h Hnd).
Qed.

Lemma header_keys_nonempty_placeholders_distinct_witness :
  colCount [[""; "Time"]; ["TR"; "10:10"; "301"]] = Num 3
  ∧ headers ([""; "Time"] ++ replicate (3 - length [""; "Time"]) "")
    = ["col_1"; "Time"; "col_3"]
  ∧ NoDup (headers ([""; "Time"] ++ replicate (3 - length [""; "Time"]) ""))
  ∧ (∀ (rec : CourseRow) (k : string),
       rec ∈ normalize_table [[""; "Time"]; ["TR"; "10:10"; "301"]] →
       is_Some (rec !! k) → k ≠ "").
Proof.
  assert (E : colCount [[""; "Time"]; ["TR"; "10:10"; "301"]] = Num 3)
    by reflexivity.
  destruct (header_keys_nonempty_placeholders_distinct 3 [""; "Time"]
              ["TR"; "10:10"; "301"] [] E ltac:(done)) as (K & _ & U & _).
  split; [exact E|]. split; [reflexivity|]. split.
  - apply U. split.
    + intros [|[|[|i]]] [|[|[|j]]] a Hij Hi Hj; simpl in *; simplify_eq; done.
    + intros [|[|[|i]]] [|[|[|j]]] a Hi Hj; simpl in *; simplify_eq;
        intros E'; cbv in E'; discriminate.
  - intros rec k Hrec Hk. by destruct (K rec k Hrec Hk).
Defined.

(** ** Facts about runs and stripping *)

Section TextFacts.

Context {A : Type}.
Variable p : A → bool.

Lemma strip_start_head (s : list A) (c : A) :
  head (strip_start p s) = Some c → p c = false.
Proof.
  induction s as [|c0 s IH]; [done|]. cbn [strip_start].
  destruct (p c0) eqn:E; [done|]. by intros [= <-].
Qed.

Lemma strip_start_drop (s : list A) :
  ∃ k, strip_start p s = drop k s ∧ Forall (λ c, p c = true) (take k s).
Proof.
  induction s as [|c s (k & E & H)]; [by exists 0%nat|]. cbn [strip_start].
  destruct (p c) eqn:Ec.
  - exists (S k). split; [done|]. by constructor.
  - by exists 0%nat.
Qed.

Lemma strip_start_id (s : list A) :
  (∀ c, head s = Some c → p c = false) → strip_start p s = s.
Proof.
  destruct s as [|c s]; [done|]. intros H. cbn [strip_start].
  by rewrite (H c).
Qed.

Lemma strip_start_nil (s : list A) :
  strip_start p s = [] ↔ Forall (λ c, p c = true) s.
Proof.
  induction s as [|c s IH]; [done|]. cbn [strip_start].
  destruct (p c) eqn:E.
  - rewrite IH. split; [by constructor|by inversion 1].
  - split; [done|]. inversion 1; congruence.
Qed.

Lemma strip_start_last (s : list A) (c : A) :
  last (strip_start p s) = Some c → last s = Some c.
Proof.
  induction s as [|c0 s IH]; [done|]. cbn [strip_start].
  destruct (p c0); [|done]. intros H. specialize (IH H).
  destruct s; [done|]. by rewrite last_cons_cons.
Qed.

Lemma strip_end_take (s : list A) :
  ∃ k, strip_end p s = take k s ∧ Forall (λ c, p c = true) (drop k s).
Proof.
  unfold strip_end.
  destruct (strip_start_drop (reverse s)) as (k & E & H).
  exists (length s - k)%nat. rewrite E. split.
  - by rewrite drop_reverse, reverse_involutive.
  - rewrite take_reverse in H. by apply Forall_reverse.
Qed.

Lemma strip_end_last (s : list A) (c : A) :
  last (strip_end p s) = Some c → p c = false.
Proof. unfold strip_end. rewrite last_reverse. apply strip_start_head. Qed.

Lemma strip_end_id (s : list A) :
  (∀ c, last s = Some c → p c = false) → strip_end p s = s.
Proof.
  intros H. unfold strip_end. rewrite strip_start_id.
  - apply reverse_involutive.
  - intros c. rewrite head_reverse. apply H.
Qed.

Lemma strip_end_nil (s : list A) :
  strip_end p s = [] ↔ Forall (λ c, p c = true) s.
Proof.
  unfold strip_end. rewrite <- (Forall_reverse _ s), <- strip_start_nil.
  split; [|by intros ->].
  intros H. apply (f_equal reverse) in H. by rewrite reverse_involutive in H.
Qed.

Lemma strip_both_head (s : list A) (c : A) :
  head (strip_both p s) = Some c → p c = false.
Proof. apply strip_start_head. Qed.

Lemma strip_both_last (s : list A) (c : A) :
  last (strip_both p s) = Some c → p c = false.
Proof. intros H%strip_start_last. by eapply strip_end_last. Qed.

Lemma strip_both_id (s : list A) :
  (∀ c, head s = Some c → p c = false) →
  (∀ c, last s = Some c → p c = false) →
  strip_both p s = s.
Proof.
  intros Hh Hl. unfold strip_both. rewrite strip_end_id by done.
  by apply strip_start_id.
Qed.

Lemma strip_both_nil (s : list A) :
  strip_both p s = [] ↔ Forall (λ c, p c = true) s.
Proof.
  unfold strip_both. split.
  - intros H%strip_start_nil. apply strip_end_nil.
    pose proof (strip_end_last s) as Hc.
    destruct (strip_end p s) as [|c t _] using rev_ind; [done|].
    apply Forall_app in H as [_ H%Forall_inv].
    specialize (Hc c). rewrite last_snoc in Hc.
    specialize (Hc eq_refl). congruence.
  - intros H%strip_end_nil. by rewrite H.
Qed.

Lemma strip_both_segment (s : list A) :
  ∃ a b, strip_both p s = drop a (take b s).
Proof.
  unfold strip_both. destruct (strip_end_take s) as (b & -> & _).
  destruct (strip_start_drop (take b s)) as (a & -> & _). by exists a, b.
Qed.

Lemma Forall_strip_both (P : A → Prop) (s : list A) :
  Forall P s → Forall P (strip_both p s).
Proof.
  intros H. destruct (strip_both_segment s) as (a & b & ->).
  by apply Forall_drop, Forall_take.
Qed.

Lemma length_strip_both (s : list A) :
  (length (strip_both p s) ≤ length s)%nat.
Proof.
  destruct (strip_both_segment s) as (a & b & ->).
  rewrite length_drop, length_take. lia.
Qed.

Lemma strip_end_snoc_class (s : list A) (c : A) :
  p c = true → strip_end p (s ++ [c]) = strip_end p s.
Proof.
  intros Hc. unfold strip_end. rewrite reverse_snoc. cbn [strip_start].
  by rewrite Hc.
Qed.

Lemma no_adjacent_drop (q : A → bool) (k : nat) (s : list A) :
  no_adjacent q s → no_adjacent q (drop k s).
Proof.
  intros H i a b. rewrite !lookup_drop, Nat.add_succ_r. apply H.
Qed.

Lemma no_adjacent_take (q : A → bool) (k : nat) (s : list A) :
  no_adjacent q s → no_adjacent q (take k s).
Proof.
  intros H i a b [Ha _]%lookup_take_Some [Hb _]%lookup_take_Some.
  by apply (H i).
Qed.

Lemma no_adjacent_strip_both (q : A → bool) (s : list A) :
  no_adjacent q s → no_adjacent q (strip_both p s).
Proof.
  intros H. destruct (strip_both_segment s) as (a & b & ->).
  by apply no_adjacent_drop, no_adjacent_take.
Qed.

Lemma replace_runs_class (r : A) (b : bool) (s : list A) :
  Forall (λ c, p c = false ∨ c = r) (replace_runs p r b s).
Proof.
  revert b. induction s as [|c s IH]; intros b; [constructor|].
  cbn [replace_runs]. destruct (p c) eqn:E.
  - destruct b; [apply IH|]. constructor; [by right|apply IH].
  - constructor; [by left|apply IH].
Qed.

Lemma replace_runs_length (r : A) (b : bool) (s : list A) :
  (length (replace_runs p r b s) ≤ length s)%nat.
Proof.
  revert b. induction s as [|c s IH]; intros b; [done|].
  cbn [replace_runs]. destruct (p c).
  - destruct b; cbn [length]; [specialize (IH true)|specialize (IH true)]; lia.
  - cbn [length]. specialize (IH false). lia.
Qed.

Lemma replace_runs_collapsed (r : A) (b : bool) (s : list A) :
  p r = true → collapsed p r b (replace_runs p r b s).
Proof.
  intros Hr. revert b. induction s as [|c s IH]; intros b; [done|].
  cbn [replace_runs]. destruct (p c) eqn:E.
  - destruct b; [apply IH|]. cbn [collapsed]. rewrite Hr. by repeat split.
  - cbn [collapsed]. rewrite E. apply IH.
Qed.

Lemma collapsed_fixed (r : A) (b : bool) (s : list A) :
  collapsed p r b s → replace_runs p r b s = s.
Proof.
  revert b. induction s as [|c s IH]; intros b; [done|].
  cbn [collapsed replace_runs]. destruct (p c).
  - intros (-> & -> & H). by rewrite IH.
  - intros H. by rewrite IH.
Qed.

Lemma collapsed_head (r : A) (s : list A) (c : A) :
  collapsed p r true s → head s = Some c → p c = false.
Proof.
  destruct s as [|c0 s]; [done|]. cbn [collapsed head].
  destruct (p c0) eqn:E; [by intros [? _]|]. by intros _ [= <-].
Qed.

Lemma collapsed_no_adjacent (r : A) (b : bool) (s : list A) :
  collapsed p r b s → no_adjacent p s.
Proof.
  revert b. induction s as [|c s IH]; intros b H i x y; [done|].
  cbn [collapsed] in H. destruct i as [|i].
  - intros [= <-] Hy Hx. rewrite Hx in H. destruct H as (_ & _ & H).
    eapply collapsed_head; [exact H|]. by rewrite head_lookup.
  - cbn [lookup list_lookup]. destruct (p c).
    + destruct H as (_ & _ & H). by apply (IH _ H).
    + by apply (IH _ H).
Qed.

Lemma replace_runs_id (r : A) (b : bool) (s : list A) :
  Forall (λ c, p c = false) s → replace_runs p r b s = s.
Proof.
  intros H. revert b. induction H as [|c s Hc _ IH]; intros b; [done|].
  cbn [replace_runs]. by rewrite Hc, IH.
Qed.

Lemma replace_runs_head (r : A) (s : list A) (c : A) :
  head s = Some c → p c = false → head (replace_runs p r false s) = Some c.
Proof.
  destruct s as [|c0 s]; [done|]. intros [= ->] Hc.
  cbn [replace_runs]. by rewrite Hc.
Qed.

Lemma replace_runs_last (r : A) (b : bool) (s : list A) (c : A) :
  last s = Some c → p c = false → last (replace_runs p r b s) = Some c.
Proof.
  intros Hl Hc. revert b Hl. induction s as [|c0 s IH]; intros b Hl; [done|].
  destruct s as [|c1 s].
  - injection Hl as ->. cbn [replace_runs]. by rewrite Hc.
  - rewrite last_cons_cons in Hl.
    change (replace_runs p r b (c0 :: c1 :: s))
      with (if p c0
            then if b then replace_runs p r true (c1 :: s)
                 else r :: replace_runs p r true (c1 :: s)
            else c0 :: replace_runs p r false (c1 :: s)).
    destruct (p c0); [destruct b|].
    + by apply IH.
    + specialize (IH true Hl).
      destruct (replace_runs p r true (c1 :: s)); [done|].
      by rewrite last_cons_cons.
    + specialize (IH false Hl).
      destruct (replace_runs p r false (c1 :: s)); [done|].
      by rewrite last_cons_cons.
Qed.

Lemma replace_runs_nil (r : A) (s : list A) :
  replace_runs p r false s = [] ↔ s = [].
Proof.
  split; [|by intros ->]. destruct s as [|c s]; [done|].
  cbn [replace_runs]. by destruct (p c).
Qed.

Lemma replace_runs_app (r : A) (b : bool) (s t : list A) :
  replace_runs p r b (s ++ t)
  = replace_runs p r b s ++ replace_runs p r (run_state p b s) t.
Proof.
  revert b. induction s as [|c s IH]; intros b; [done|].
  assert (E : run_state p b (c :: s) = run_state p (p c) s).
  { unfold run_state. rewrite last_cons. by destruct (last s). }
  rewrite E. cbn [app replace_runs]. destruct (p c).
  - destruct b; by rewrite IH.
  - by rewrite IH.
Qed.

Lemma replace_runs_all_class_run (r : A) (t : list A) :
  Forall (λ c, p c = true) t → replace_runs p r true t = [].
Proof.
  induction 1 as [|c t Hc _ IH]; [done|]. cbn [replace_runs]. by rewrite Hc.
Qed.

Lemma replace_runs_all_class (r : A) (b : bool) (t : list A) :
  Forall (λ c, p c = true) t →
  replace_runs p r b t = [] ∨ replace_runs p r b t = [r].
Proof.
  intros H. destruct b; [left; by apply replace_runs_all_class_run|].
  destruct H as [|c t Hc Ht]; [by left|]. right.
  cbn [replace_runs]. by rewrite Hc, replace_runs_all_class_run.
Qed.

End TextFacts.

(** ** The file name of a course page *)

Section SlugFacts.

Lemma is_underscore_eq (c : Ascii.ascii) : is_underscore c = true ↔ c = "_"%char.
Proof. apply Ascii.eqb_eq. Qed.

Lemma alnum_not_underscore (c : Ascii.ascii) :
  is_alnum c = true → is_underscore c = false.
Proof.
  intros H. destruct (is_underscore c) eqn:E; [|done].
  apply is_underscore_eq in E as ->. discriminate H.
Qed.

Lemma not_alnum_false (c : Ascii.ascii) : not_alnum c = false ↔ is_alnum c = true.
Proof. unfold not_alnum. by destruct (is_alnum c). Qed.

Lemma underscore_not_alnum (c : Ascii.ascii) :
  is_underscore c = true → not_alnum c = true.
Proof. intros ->%is_underscore_eq. reflexivity. Qed.

Lemma slug_list (u : string) :
  String.list_ascii_of_string (slug u)
  = slug_chars (String.list_ascii_of_string u).
Proof. apply String.list_ascii_of_string_of_list_ascii. Qed.

Lemma list_ascii_of_string_app (u t : string) :
  String.list_ascii_of_string (u +:+ t)
  = String.list_ascii_of_string u ++ String.list_ascii_of_string t.
Proof.
  induction u as [|c u IH]; [done|].
  change (String c u +:+ t) with (String c (u +:+ t)).
  cbn [String.list_ascii_of_string app]. by rewrite IH.
Qed.

Lemma slice_last_all {A} (n : nat) (s : list A) :
  (length s ≤ n)%nat → slice_last n s = s.
Proof.
  intros H. unfold slice_last. by replace (length s - n)%nat with 0%nat by lia.
Qed.

Lemma slice_last_last {A} (n : nat) (s : list A) :
  (0 < n)%nat → last (slice_last n s) = last s.
Proof.
  intros Hn. unfold slice_last. rewrite !last_lookup, lookup_drop, length_drop.
  destruct (decide (length s = 0)%nat) as [E|E].
  - apply length_zero_iff_nil in E as ->. done.
  - f_equal. lia.
Qed.

Lemma collapsed_url (url : list Ascii.ascii) :
  no_adjacent not_alnum
    (strip_both is_underscore (replace_runs not_alnum "_"%char false url)).
Proof.
  apply no_adjacent_strip_both.
  apply (collapsed_no_adjacent _ "_"%char false).
  by apply replace_runs_collapsed.
Qed.

End SlugFacts.

(** X8.  The name made from a URL is safe as a file name: it has at most 180
    characters, and each of them is an ASCII letter, a digit or '_'. *)
Theorem slug_is_safe_name (u : string) :
  (length (String.list_ascii_of_string (slug u)) ≤ 180)%nat
  ∧ Forall (λ c, is_alnum c = true ∨ c = "_"%char)
      (String.list_ascii_of_string (slug u)).
Proof.
  rewrite slug_list. unfold slug_chars, slice_last. split.
  - rewrite length_drop. lia.
  - apply Forall_drop, Forall_strip_both.
    eapply Forall_impl; [apply replace_runs_class|].
    intros c [H|H]; [left; by apply not_alnum_false|by right].
Qed.

(** X9.  The name never ends with '_' and never has two '_' side by side;
    when the URL has at most 180 characters, so that nothing is cut off, it
    does not start with '_' either. *)
Theorem slug_underscores_separate (u : string) :
  last (String.list_ascii_of_string (slug u)) ≠ Some "_"%char
  ∧ (∀ (i : nat),
       String.list_ascii_of_string (slug u) !! i = Some "_"%char →
       String.list_ascii_of_string (slug u) !! S i ≠ Some "_"%char)
  ∧ ((length (String.list_ascii_of_string u) ≤ 180)%nat →
     head (String.list_ascii_of_string (slug u)) ≠ Some "_"%char).
Proof.
  rewrite slug_list. unfold slug_chars. split; [|split].
  - rewrite slice_last_last by lia. intros H%strip_both_last. done.
  - intros i Hi Hi'. unfold slice_last in *.
    pose proof (no_adjacent_drop not_alnum (length (strip_both is_underscore
      (replace_runs not_alnum "_"%char false (String.list_ascii_of_string u)))
      - 180) _ (collapsed_url (String.list_ascii_of_string u))) as H.
    by specialize (H i _ _ Hi Hi' eq_refl).
  - intros Hlen. rewrite slice_last_all.
    + intros H%strip_both_head. done.
    + etrans; [apply length_strip_both|].
      etrans; [apply replace_runs_length|done].
Qed.

Lemma slug_underscores_separate_witness :
  (length (String.list_ascii_of_string
             "https://doc.sis.columbia.edu/subj/COMS/W4701-20253-001/") ≤ 180)%nat
  ∧ slug "https://doc.sis.columbia.edu/subj/COMS/W4701-20253-001/"
    = "https_doc_sis_columbia_edu_subj_COMS_W4701_20253_001"
  ∧ head (String.list_ascii_of_string
            (slug "https://doc.sis.columbia.edu/subj/COMS/W4701-20253-001/"))
    ≠ Some "_"%char.
Proof.
  assert (H : (length (String.list_ascii_of_string
             "https://doc.sis.columbia.edu/subj/COMS/W4701-20253-001/") ≤ 180)%nat)
    by (vm_compute; lia).
  split; [exact H|]. split; [vm_compute; reflexivity|].
  by apply (slug_underscores_separate
    "https://doc.sis.columbia.edu/subj/COMS/W4701-20253-001/").
Defined.

(** X10.  A text of letters and digits only, of at most 180 characters, is
    its own name. *)
Theorem slug_of_plain_name (u : string) :
  Forall (λ c, is_alnum c = true) (String.list_ascii_of_string u) →
  (length (String.list_ascii_of_string u) ≤ 180)%nat →
  slug u = u.
Proof.
  intros Hal Hlen. unfold slug, slug_chars.
  rewrite replace_runs_id
    by (eapply Forall_impl; [exact Hal|]; intros c; apply not_alnum_false).
  rewrite strip_both_id.
  - rewrite slice_last_all by done. apply String.string_of_list_ascii_of_string.
  - intros c Hc. apply alnum_not_underscore.
    eapply Forall_forall in Hal; [exact Hal|]. by eapply head_Some_elem_of.
  - intros c Hc. apply alnum_not_underscore.
    eapply Forall_forall in Hal; [exact Hal|]. by eapply last_Some_elem_of.
Qed.

Lemma slug_of_plain_name_witness : slug "W4701" = "W4701".
Proof. apply slug_of_plain_name; [by repeat constructor|simpl; lia]. Defined.

(** X11.  Characters other than letters and digits at the end of a URL do
    not show in the name: two URLs that differ only there are given the same
    raw file. *)
Theorem slug_ignores_trailing_punctuation (u t : string) :
  Forall (λ c, is_alnum c = false) (String.list_ascii_of_string t) →
  slug (u +:+ t) = slug u.
Proof.
  intros Ht. unfold slug, slug_chars. do 2 f_equal.
  rewrite list_ascii_of_string_app, replace_runs_app.
  destruct (replace_runs_all_class not_alnum "_"%char
              (run_state not_alnum false (String.list_ascii_of_string u))
              (String.list_ascii_of_string t)) as [-> | ->].
  - eapply Forall_impl; [exact Ht|]. intros c Hc. unfold not_alnum. by rewrite Hc.
  - by rewrite app_nil_r.
  - unfold strip_both. by rewrite strip_end_snoc_class.
Qed.

Lemma slug_ignores_trailing_punctuation_witness :
  slug ("https://doc.sis.columbia.edu/subj/COMS/W4701-20253-001" +:+ "/?")
  = slug "https://doc.sis.columbia.edu/subj/COMS/W4701-20253-001".
Proof.
  apply slug_ignores_trailing_punctuation. by repeat constructor.
Defined.

(** ** The text of a cell *)

Section CellTextFacts.

Lemma cell_text_collapsed (x : option text) :
  collapsed is_space SPACE false (cell_text x).
Proof. by apply replace_runs_collapsed. Qed.

Lemma cell_text_head (x : option text) (u : N) :
  head (cell_text x) = Some u → is_space u = false.
Proof.
  unfold cell_text.
  pose proof (strip_both_head is_space (default [] x)) as H.
  destruct (strip_both is_space (default [] x)) as [|c s]; [done|].
  specialize (H c eq_refl). cbn [replace_runs]. rewrite H. by intros [= <-].
Qed.

Lemma cell_text_last (x : option text) (u : N) :
  last (cell_text x) = Some u → is_space u = false.
Proof.
  unfold cell_text.
  pose proof (strip_both_last is_space (default [] x)) as H.
  destruct (last (strip_both is_space (default [] x))) as [c|] eqn:E.
  - rewrite (replace_runs_last _ _ _ _ c E (H c eq_refl)).
    intros [= <-]. by apply H.
  - apply last_None in E. by rewrite E.
Qed.

End CellTextFacts.

(** X12.  The text of a cell neither starts nor ends with white space; the
    only white space character in it is U+0020, and no two of them are side
    by side. *)
Theorem cell_text_is_trimmed_and_collapsed (x : option text) :
  (∀ u : N, head (cell_text x) = Some u → is_space u = false)
  ∧ (∀ u : N, last (cell_text x) = Some u → is_space u = false)
  ∧ (∀ u : N, u ∈ cell_text x → is_space u = true → u = SPACE)
  ∧ (∀ (i : nat) (u v : N),
       cell_text x !! i = Some u → cell_text x !! S i = Some v →
       is_space u = true → is_space v = false).
Proof.
  split; [apply cell_text_head|]. split; [apply cell_text_last|]. split.
  - intros u Hu Hs. unfold cell_text in Hu.
    pose proof (replace_runs_class is_space SPACE false
                  (strip_both is_space (default [] x))) as H.
    eapply Forall_forall in H; [|exact Hu]. destruct H; [congruence|done].
  - apply (collapsed_no_adjacent is_space SPACE false), cell_text_collapsed.
Qed.

(** X13.  Cleaning a text that has been cleaned changes nothing. *)
Theorem cell_text_idempotent (x : option text) :
  cell_text (Some (cell_text x)) = cell_text x.
Proof.
  unfold cell_text at 1. cbn [default].
  rewrite strip_both_id; [|apply cell_text_head|apply cell_text_last].
  apply collapsed_fixed, cell_text_collapsed.
Qed.

(** X14.  The text of a cell is empty exactly when the element has no text
    or only white space, so that such a cell counts as empty for the
    normalizer. *)
Theorem cell_text_empty_iff (x : option text) :
  cell_text x = [] ↔ Forall (λ u, is_space u = true) (default [] x).
Proof. unfold cell_text. by rewrite replace_runs_nil, strip_both_nil. Qed.

(** ** The order of the discovered links *)

Section OrderFacts.

Lemma foldl_set_add_present (s xs : list string) :
  Forall (λ x, x ∈ s) xs → foldl set_add s xs = s.
Proof.
  induction 1 as [|x xs Hx _ IH]; [done|].
  cbn [foldl]. by rewrite set_add_present.
Qed.

Lemma foldl_set_add_fresh (s xs : list string) :
  NoDup (s ++ xs) → foldl set_add s xs = s ++ xs.
Proof.
  revert s. induction xs as [|x xs IH]; intros s H; [by rewrite app_nil_r|].
  cbn [foldl]. rewrite set_add_fresh.
  - rewrite IH; rewrite <- app_assoc; done.
  - apply NoDup_app in H as (_ & H & _). intros Hx. apply (H x Hx). by left.
Qed.

Lemma foldl_set_add_extends (s xs : list string) :
  ∃ rest, foldl set_add s xs = s ++ rest.
Proof.
  revert s. induction xs as [|x xs IH]; intros s.
  - exists []. by rewrite app_nil_r.
  - cbn [foldl]. unfold set_add at 2. case_decide; [apply IH|].
    destruct (IH (s ++ [x])) as (rest & ->). exists (x :: rest).
    by rewrite <- app_assoc.
Qed.

Lemma new_Set_NoDup_id (xs : list string) : NoDup xs → new_Set xs = xs.
Proof. intros H. unfold new_Set. by rewrite foldl_set_add_fresh. Qed.

Lemma new_Set_app (xs ys : list string) :
  new_Set (xs ++ ys) = foldl set_add (new_Set xs) ys.
Proof. unfold new_Set. apply foldl_app. Qed.

End OrderFacts.

Section OrderClaims.

Variable url_href : string → string → option string.

(** X15.  The links of the top document come first in the result, in the
    order in which [grab] returned them; the frames only add, behind them,
    links that are not among them. *)
Theorem top_document_links_come_first
    (page : Context) (frames : list Context) (tCode : string) :
  ∃ rest : list string,
    discoverCourseLinks url_href page frames tCode
    = Some (links_of url_href tCode page ++ rest)
    ∧ ∀ u : string, u ∈ rest → u ∉ links_of url_href tCode page.
Proof.
  rewrite discoverCourseLinks_eq, new_Set_app.
  assert (Hid : new_Set (links_of url_href tCode page)
                = links_of url_href tCode page).
  { apply new_Set_NoDup_id. destruct page as [doc|]; [|apply NoDup_nil_2].
    apply NoDup_new_Set. }
  pose proof (NoDup_new_Set (links_of url_href tCode page
    ++ mjoin (links_of url_href tCode <$> frames))) as Hnd.
  rewrite new_Set_app, Hid in Hnd. rewrite Hid.
  destruct (foldl_set_add_extends (links_of url_href tCode page)
    (mjoin (links_of url_href tCode <$> frames))) as (rest & E).
  rewrite E in *. exists rest. split; [done|].
  intros u Hu Hin. apply NoDup_app in Hnd as (_ & H & _). by apply (H u).
Qed.

(** X16.  Handing the top document to the pass again as one of its frames,
    as [page.frames()] does with the main frame, changes nothing. *)
Theorem main_frame_counted_once
    (page : Context) (frames : list Context) (tCode : string) :
  discoverCourseLinks url_href page (page :: frames) tCode
  = discoverCourseLinks url_href page frames tCode.
Proof.
  rewrite !discoverCourseLinks_eq. f_equal.
  rewrite fmap_cons. cbn [mjoin list_join].
  rewrite !new_Set_app, foldl_app. f_equal.
  apply foldl_set_add_present, Forall_forall.
  intros u Hu. by apply elem_of_new_Set.
Qed.

End OrderClaims.

(** ** The loop over the course pages *)

Section LoopFacts.

Variable goto : string → option PageView.

Lemma course_loop_cons (u : string) (rest : list string)
    (results : list CourseItem) (raw : gmap string string) :
  course_loop goto (u :: rest) results raw
  = match goto u with
    | Some page =>
        course_loop goto rest (results ++ [course_item u page])
          (<[raw_name u := content page]> raw)
    | None => None
    end.
Proof. cbn [course_loop]. by destruct (goto u). Qed.

Lemma course_loop_None (courseLinks : list string)
    (results : list CourseItem) (raw : gmap string string) :
  course_loop goto courseLinks results raw = None
  ↔ ∃ u, u ∈ courseLinks ∧ goto u = None.
Proof.
  revert results raw. induction courseLinks as [|u rest IH]; intros results raw.
  - split; [done|]. by intros (u & ?%elem_of_nil & _).
  - rewrite course_loop_cons. destruct (goto u) as [page|] eqn:E.
    + rewrite IH. split.
      * intros (v & Hv & Hn). exists v. split; [by right|done].
      * intros (v & Hv & Hn). apply elem_of_cons in Hv as [->|Hv]; [congruence|].
        by exists v.
    + split; [|done]. intros _. exists u. split; [by left|done].
Qed.

Lemma course_loop_Some (courseLinks : list string)
    (results results' : list CourseItem) (raw raw' : gmap string string) :
  course_loop goto courseLinks results raw = Some (results', raw') →
  ∃ items,
    results' = results ++ items
    ∧ Forall2 (λ u item, ∃ page, goto u = Some page ∧ item = course_item u page)
        courseLinks items.
Proof.
  revert results raw. induction courseLinks as [|u rest IH]; intros results raw.
  - intros [= <- <-]. exists []. by rewrite app_nil_r.
  - rewrite course_loop_cons. destruct (goto u) as [page|] eqn:E; [|done].
    intros (items & -> & H)%IH. exists (course_item u page :: items).
    split; [by rewrite <- app_assoc|]. constructor; [by exists page|done].
Qed.

Lemma course_loop_other_file (name : string) (courseLinks : list string)
    (results results' : list CourseItem) (raw raw' : gmap string string) :
  Forall (λ v, raw_name v ≠ name) courseLinks →
  course_loop goto courseLinks results raw = Some (results', raw') →
  raw' !! name = raw !! name.
Proof.
  intros H. revert results raw.
  induction H as [|u rest Hu _ IH]; intros results raw.
  - by intros [= <- <-].
  - rewrite course_loop_cons. destruct (goto u) as [page|]; [|done].
    intros ->%IH. by apply lookup_insert_ne.
Qed.

End LoopFacts.

Lemma page_view_None (v : Visit) : page_view v = None ↔ rejects v.
Proof.
  unfold page_view, rejects.
  destruct (navigated v); [|split; [by left|done]].
  destruct (page_content v) as [html|]; cbn [mbind option_bind];
    [|split; [right; by left|done]].
  destruct (raw_written v); [|split; [do 2 right; by left|done]].
  destruct (table_count v) as [n|]; cbn [mbind option_bind];
    [|split; [do 3 right; by left|done]].
  case_decide as Hn.
  - destruct (table_cells v) as [matrix|]; cbn [mbind option_bind].
    + destruct (within_spread v).
      * split; [done|].
        intros [|[|[|[|(m & [= <-] & _ & [|])]]]]; done.
      * split; [|done]. intros _. do 4 right. exists n. by repeat split; [|right].
    + split; [|done]. intros _. do 4 right. exists n. by repeat split; [|left].
  - split; [done|].
    intros [|[|[|[|(m & [= <-] & Hm & _)]]]]; done.
Qed.

(** X17.  The loop gives up as a whole, items collected so far included,
    exactly when, for one of the links, an await of the pass that nothing
    catches rejects: the navigation, the reading of the page content, the
    writing of the raw file, the count of the tables or, when there is a
    table, the reading of its cells or the call of [Math.max] on its rows.
    A heading that cannot be read never stops the loop. *)
Theorem one_failed_course_page_aborts
    (visit : string → Visit) (courseLinks : list string) :
  course_loop (λ u, page_view (visit u)) courseLinks [] ∅ = None
  ↔ ∃ u : string,
      u ∈ courseLinks
      ∧ (navigated (visit u) = false
         ∨ page_content (visit u) = None
         ∨ raw_written (visit u) = false
         ∨ table_count (visit u) = None
         ∨ ∃ tableCount : nat,
             table_count (visit u) = Some tableCount ∧ (0 < tableCount)%nat
             ∧ (table_cells (visit u) = None
                ∨ within_spread (visit u) = false)).
Proof.
  rewrite course_loop_None. split.
  - intros (u & Hu & Hn). exists u. split; [done|]. by apply page_view_None.
  - intros (u & Hu & Hr). exists u. split; [done|]. by apply page_view_None.
Qed.

(** X18.  When the loop ends, there is one item for each link, in the order
    of the links; the item of a link bears its URL, the heading of its page
    and the records of the page's first table, and has no rows at all when
    the page has no table. *)
Theorem items_follow_links
    (goto : string → option PageView) (courseLinks : list string)
    (results : list CourseItem) (raw : gmap string string) :
  course_loop goto courseLinks [] ∅ = Some (results, raw) →
  url <$> results = courseLinks
  ∧ Forall2 (λ u item, ∃ page : PageView,
               goto u = Some page
               ∧ title item = heading page
               ∧ rows item = normalize_table <$> first_table page
               ∧ (rows item = None ↔ first_table page = None))
      courseLinks results.
Proof.
  intros (items & -> & H)%course_loop_Some. cbn [app]. split.
  - induction H as [|u item l items (page & _ & ->) _ IH]; [done|].
    rewrite fmap_cons, IH. reflexivity.
  - eapply Forall2_impl; [exact H|].
    intros u item (page & E & ->). exists page. cbn.
    repeat split; try done; by destruct (first_table page).
Qed.

Lemma items_follow_links_witness :
  let goto := λ u : string,
    if String.eqb u "https://doc.sis.columbia.edu/subj/COMS/W4701-20253-001/"
    then Some {| content := "<html></html>"; heading := Some "COMS W4701";
                 first_table := Some [["98765"; "Call Number"]] |}
    else if String.eqb u "https://doc.sis.columbia.edu/subj/COMS/W4111-20253-001/"
    then Some {| content := "<html></html>"; heading := None;
                 first_table := None |}
    else None in
  ∃ results raw,
    course_loop goto
      ["https://doc.sis.columbia.edu/subj/COMS/W4701-20253-001/";
       "https://doc.sis.columbia.edu/subj/COMS/W4111-20253-001/"] [] ∅
    = Some (results, raw)
    ∧ url <$> results
      = ["https://doc.sis.columbia.edu/subj/COMS/W4701-20253-001/";
         "https://doc.sis.columbia.edu/subj/COMS/W4111-20253-001/"]
    ∧ rows <$> results = [Some [ {[ "Call Number" := "98765" ]} ]; None].
Proof.
  intros goto. eexists _, _. split; [reflexivity|].
  split; [|vm_compute; reflexivity].
  refine (proj1 (items_follow_links goto _ _ _ _)). reflexivity.
Defined.

(** X19.  The raw file named after a link holds the content of the page of
    the last link with that name: a later link with the same name replaces
    the file, and with no such link the file is the link's own page. *)
Theorem raw_file_of_last_link
    (goto : string → option PageView) (pre post : list string) (u : string)
    (page : PageView) (results : list CourseItem) (raw : gmap string string) :
  goto u = Some page →
  Forall (λ v, raw_name v ≠ raw_name u) post →
  course_loop goto (pre ++ u :: post) [] ∅ = Some (results, raw) →
  raw !! raw_name u = Some (content page).
Proof.
  intros E Hpost. generalize (@nil CourseItem) (∅ : gmap string string).
  induction pre as [|v pre IH]; intros results0 raw0.
  - cbn [app]. rewrite course_loop_cons, E.
    intros ->%(course_loop_other_file _ (raw_name u)); [|done].
    apply lookup_insert_eq.
  - cbn [app]. rewrite course_loop_cons. destruct (goto v); [|done]. apply IH.
Qed.

Lemma raw_file_of_last_link_witness :
  let goto := λ u : string,
    if String.eqb u "https://doc.sis.columbia.edu/subj/COMS/W4701-20253-001"
    then Some {| content := "first"; heading := None; first_table := None |}
    else Some {| content := "second"; heading := None; first_table := None |} in
  ∃ results raw,
    course_loop goto
      ["https://doc.sis.columbia.edu/subj/COMS/W4701-20253-001";
       "https://doc.sis.columbia.edu/subj/COMS/W4701-20253-001/"] [] ∅
    = Some (results, raw)
    ∧ raw_name "https://doc.sis.columbia.edu/subj/COMS/W4701-20253-001"
      = raw_name "https://doc.sis.columbia.edu/subj/COMS/W4701-20253-001/"
    ∧ raw !! raw_name "https://doc.sis.columbia.edu/subj/COMS/W4701-20253-001"
      = Some "second".
Proof.
  intros goto. eexists _, _. split; [reflexivity|].
  split; [vm_compute; reflexivity|].
  replace (raw_name "https://doc.sis.columbia.edu/subj/COMS/W4701-20253-001")
    with (raw_name "https://doc.sis.columbia.edu/subj/COMS/W4701-20253-001/")
    by (vm_compute; reflexivity).
  apply (raw_file_of_last_link goto
    ["https://doc.sis.columbia.edu/subj/COMS/W4701-20253-001"] []
    "https://doc.sis.columbia.edu/subj/COMS/W4701-20253-001/"
    {| content := "second"; heading := None; first_table := None |}
    _ _ eq_refl (Forall_nil_2 _) eq_refl).
Defined.

(** ** The whole run *)

Section RunFacts.

Variable url_href : string → string → option string.

Lemma NoDup_fallback_links (fallback : option Listing) :
  NoDup (fallback_links url_href fallback).
Proof.
  unfold fallback_links. destruct fallback as [l|]; [|apply NoDup_nil_2].
  cbn [mbind option_bind]. rewrite discoverCourseLinks_eq.
  apply NoDup_new_Set.
Qed.

Lemma course_links_eq (listing : Listing) (fallback : option Listing) :
  ∃ first,
    discoverCourseLinks url_href listing.1 listing.2 TERM_CODE = Some first
    ∧ NoDup first
    ∧ course_links url_href listing fallback
      = Some (if decide (first = []) then fallback_links url_href fallback
              else first).
Proof.
  unfold course_links. rewrite discoverCourseLinks_eq.
  eexists. split; [done|]. split; [apply NoDup_new_Set|].
  cbn [mbind option_bind].
  destruct (new_Set _) as [|u first]; [done|].
  rewrite decide_False by done. by rewrite decide_False.
Qed.

(** X20.  The listing always yields a list of links without duplicates.  It
    is the list found on the listing page whenever that one is not empty;
    the direct subject page is consulted only when it is empty, and a failed
    navigation to it leaves the list empty without ending the run. *)
Theorem fallback_only_when_nothing_found
    (listing : Listing) (fallback : option Listing) :
  ∃ first links : list string,
    discoverCourseLinks url_href listing.1 listing.2 TERM_CODE = Some first
    ∧ course_links url_href listing fallback = Some links
    ∧ NoDup links
    ∧ (first ≠ [] → links = first)
    ∧ (first = [] → links = fallback_links url_href fallback)
    ∧ (first = [] → fallback = None → links = []).
Proof.
  destruct (course_links_eq listing fallback) as (first & E & Hnd & Hl).
  exists first. eexists. split; [exact E|]. split; [exact Hl|].
  case_decide as Hf.
  - split; [apply NoDup_fallback_links|]. split; [done|]. split; [done|].
    by intros _ ->.
  - split; [done|]. split; [done|]. split; done.
Qed.

(** X21.  A run that ends normally has written one item for each discovered
    link, in the order of discovery, and no URL twice. *)
Theorem no_course_twice
    (listing fallback : option Listing) (goto : string → option PageView)
    (results : list CourseItem) (raw : gmap string string) :
  scrape url_href listing fallback goto = Some (results, raw) →
  ∃ (l : Listing) (links : list string),
    listing = Some l
    ∧ course_links url_href l fallback = Some links
    ∧ url <$> results = links
    ∧ NoDup (url <$> results).
Proof.
  unfold scrape. destruct listing as [l|]; [|done]. cbn [mbind option_bind].
  destruct (fallback_only_when_nothing_found l fallback)
    as (first & links & _ & E & Hnd & _).
  rewrite E. cbn [mbind option_bind]. intros [Hu _]%items_follow_links.
  exists l, links. rewrite Hu. done.
Qed.

Lemma check_None (ok : bool) : check ok = None ↔ ok = false.
Proof. by destruct ok. Qed.

(** X22.  The run ends in failure exactly when an await that nothing catches
    rejects: the start of the browser session, the navigation to the
    listing, the screenshot, a pass of the loop for one of the collected
    links, the writing of courses.json or the closing of the browser.  With
    all of these in order an empty list of links is no failure: the run
    ends normally without items. *)
Theorem run_fails_iff (s : Session) :
  (run url_href s = None
   ↔ started s = false
     ∨ listing_page s = None
     ∨ screenshot_taken s = false
     ∨ (∃ (l : Listing) (links : list string) (u : string),
          listing_page s = Some l
          ∧ course_links url_href l (fallback_page s) = Some links
          ∧ u ∈ links ∧ rejects (visit s u))
     ∨ output_written s = false
     ∨ closed s = false)
  ∧ (∀ l : Listing,
       started s = true → listing_page s = Some l →
       screenshot_taken s = true →
       course_links url_href l (fallback_page s) = Some [] →
       output_written s = true → closed s = true →
       run url_href s = Some ([], ∅)).
Proof.
  unfold run. split.
  - destruct (started s); cbn [check mbind option_bind];
      [|split; [by left|done]].
    destruct (listing_page s) as [l|]; cbn [mbind option_bind];
      [|split; [right; by left|done]].
    assert (∃ links, course_links url_href l (fallback_page s) = Some links)
      as (links & E).
    { destruct (course_links_eq l (fallback_page s)) as (first & _ & _ & E).
      eauto. }
    destruct (screenshot_taken s); cbn [check mbind option_bind].
    2:{ split; [do 2 right; by left|done]. }
    rewrite E. cbn [mbind option_bind].
    destruct (course_loop _ links [] ∅) as [res|] eqn:Hloop;
      cbn [mbind option_bind].
    + assert (Hno : ¬ ∃ u, u ∈ links ∧ rejects (visit s u)).
      { intros (u & Hu & Hr). apply page_view_None in Hr.
        assert (course_loop (λ u, page_view (visit s u)) links [] ∅ = None)
          as Hn by (apply course_loop_None; by exists u).
        congruence. }
      destruct (output_written s); cbn [check mbind option_bind].
      * destruct (closed s); cbn [check mbind option_bind].
        -- split; [done|].
           intros [|[|[|[(l' & links' & u & [= <-] & E' & Hu & Hr)|[|]]]]];
             try done.
           rewrite E in E'. injection E' as <-. destruct Hno. by exists u.
        -- split; [|done]. intros _. by do 5 right.
      * split; [|done]. intros _. do 4 right. by left.
    + split; [|done]. intros _. do 3 right. left.
      apply course_loop_None in Hloop as (u & Hu & Hr%page_view_None).
      by exists l, links, u.
  - intros l H1 H2 H3 H4 H5 H6.
    rewrite H1. cbn [check mbind option_bind].
    rewrite H2. cbn [mbind option_bind].
    rewrite H3. cbn [check mbind option_bind].
    rewrite H4. cbn [mbind option_bind course_loop].
    rewrite H5, H6. reflexivity.
Qed.

End RunFacts.

Lemma no_course_twice_witness :
  ∃ results raw,
    scrape url_of_simple_reference
      (Some (Some {| origin := BASE; anchors := [] |},
             [Some {| origin := BASE;
                      anchors := ["/subj/COMS/W4701-20253-001/";
                                  "/subj/COMS/W4701-20253-001/#top"] |}]))
      None
      (λ _, Some {| content := "<html></html>"; heading := None;
                    first_table := None |})
    = Some (results, raw)
    ∧ url <$> results
      = ["https://doc.sis.columbia.edu/subj/COMS/W4701-20253-001/"]
    ∧ NoDup (url <$> results).
Proof.
  eexists _, _. split; [vm_compute; reflexivity|].
  split; [vm_compute; reflexivity|].
  destruct (no_course_twice url_of_simple_reference
    (Some (Some {| origin := BASE; anchors := [] |},
           [Some {| origin := BASE;
                    anchors := ["/subj/COMS/W4701-20253-001/";
                                "/subj/COMS/W4701-20253-001/#top"] |}]))
    None
    (λ _, Some {| content := "<html></html>"; heading := None;
                  first_table := None |})
    _ _ ltac:(vm_compute; reflexivity)) as (l & links & _ & _ & _ & H).
  exact H.
Defined.

Lemma run_fails_iff_witness :
  run url_of_simple_reference
    {| started := true;
       listing_page := Some (Some {| origin := BASE; anchors := [] |}, []);
       screenshot_taken := true;
       fallback_page := None;
       visit := λ _, {| navigated := false; page_content := None;
                        raw_written := false; first_heading := None;
                        table_count := None; table_cells := None;
                        within_spread := false |};
       output_written := true;
       closed := true |}
  = Some ([], ∅).
Proof.
  apply (proj2 (run_fails_iff url_of_simple_reference _)
           (Some {| origin := BASE; anchors := [] |}, []));
    reflexivity.
Defined.
